(** * streamline-static: the static file handler, embedded and verified

    The embedding follows [src/build.js] (the handler module that the build
    script compiles): [staticProvider], [modified], [conditionalGET], [etag],
    [notModified], [forbidden], [clearCache] and [endsWith].

    - JavaScript strings are [string]; a Buffer is a list of bytes.
    - The module-level object [_cache] and every header object are finite
      maps from strings ([gmap string _]).
    - The handler is effectful: it reads and writes [_cache], writes to the
      response, and calls [fs.stat] / [fs.readFile], either of which may
      throw.  It is modelled in a small state-and-exception monad that also
      records each of those effects, in order, as an [Event].
    - Numbers are integers ([Z]): sizes, lengths, times in milliseconds and
      [maxAge]; the one quotient, [maxAge / 1000], is printed by the host.
    - [_cache[key]] finds the entries the module wrote: keys are a prefix
      followed by a URL, which no property inherited by [{}] spells.
    - The functions of Node and of [./utils] that the module calls are the
      fields of a [Host]; every theorem holds for every host. *)

From Stdlib Require Import ZArith Strings.Ascii Strings.Byte.
From stdpp Require Import prelude strings gmap pretty.

Local Open Scope Z_scope.

(** ** JavaScript string primitives used by the module *)

Module Js.

(** [s.length] *)
Definition length (s : string) : Z := Z.of_nat (String.length s).

Fixpoint indexOf_from (i : Z) (str pattern : string) : Z :=
  if String.prefix pattern str then i
  else match str with
       | EmptyString => -1
       | String _ rest => indexOf_from (i + 1) rest pattern
       end.

(** [str.indexOf(pattern)]: position of the first occurrence, or -1. *)
Definition indexOf (str pattern : string) : Z := indexOf_from 0 str pattern.

(** [~x] used as a truth value: [~x] is falsy exactly when it is 0. *)
Definition tilde_truthy (x : Z) : bool := negb (Z.lnot x =? 0).

(** [str.split(sep)] for a one-character separator. *)
Fixpoint split (sep : ascii) (str : string) : list string :=
  match str with
  | EmptyString => [EmptyString]
  | String c rest =>
      if decide (c = sep) then EmptyString :: split sep rest
      else match split sep rest with
           | piece :: pieces => String c piece :: pieces
           | [] => [String c EmptyString]
           end
  end.

(** [arr[0]] and [arr[arr.length - 1]] on the result of [split]
    (never empty, so the default is not reached). *)
Definition first (pieces : list string) : string := hd EmptyString pieces.
Definition final (pieces : list string) : string := List.last pieces EmptyString.

Fixpoint drop (n : nat) (s : string) : string :=
  match n, s with
  | O, _ => s
  | S _, EmptyString => EmptyString
  | S n', String _ rest => drop n' rest
  end.

(** [str.substring(start)]: a negative start counts as 0, a start beyond
    the end gives the empty string. *)
Definition substring (start : Z) (str : string) : string :=
  drop (Z.to_nat start) str.

(** [str[str.length - 1]], [None] for [undefined] (the empty string). *)
Fixpoint lastChar (s : string) : option ascii :=
  match s with
  | EmptyString => None
  | String c EmptyString => Some c
  | String _ rest => lastChar rest
  end.

(** Truthiness of a value that is a string or [undefined]. *)
Definition truthy (v : option string) : bool :=
  match v with
  | Some s => negb (bool_decide (s = EmptyString))
  | None => false
  end.

(** [v + s] where [v] is a string or [undefined]. *)
Definition concat (v : option string) (s : string) : string :=
  match v with
  | Some p => p +:+ s
  | None => "undefined" +:+ s
  end.

End Js.

(** ** Data model *)

(** A Buffer ([fs.readFile] without an encoding). *)
Abbreviation Buffer := (list byte).

(** Values stored in a header object: strings, and the number
    [data.length] / [body.length]. *)
Inductive HeaderValue :=
| HStr (s : string)
| HNum (n : Z).

Abbreviation Headers := (gmap string HeaderValue).

(** What [res.end] is given. *)
Inductive Body :=
| Text (s : string)
| Bytes (b : Buffer).

(** The values the configuration options [maxAge] and [cache] take:
    absent, a boolean, or a number of milliseconds. *)
Inductive JsValue :=
| JUndefined
| JBool (b : bool)
| JNum (n : Z).

Definition truthy (v : JsValue) : bool :=
  match v with
  | JUndefined => false
  | JBool b => b
  | JNum n => negb (n =? 0)
  end.

(** [a || b] *)
Definition js_or (a b : JsValue) : JsValue := if truthy a then a else b.

(** An exception; [code] is [err.code]. *)
Record JsError := { code : option string; message : string }.

(** [fs.Stats]: [size], [Number(mtime)] in milliseconds, [isDirectory()]. *)
Record Stat := { size : Z; mtime : Z; isDirectory : bool }.

Inductive Completion (A : Type) :=
| Return (a : A)
| Throw (e : JsError).
Arguments Return {A} a.
Arguments Throw {A} e.

(** The file system as the handler sees it during one call, and the clock
    read by [new Date()]. *)
Record Env := {
  fs_stat : string → Completion Stat;
  fs_readFile : string → Completion Buffer;
  now : Z
}.

(** [req]: the handler reads [method], [url] and [headers]. *)
Record Request := {
  method : string;
  url : string;
  headers : option (gmap string string)
}.

(** [opts], the per-request argument.  [transform] is a function of the
    bytes read: it may throw, and it touches neither the response nor
    [_cache]. *)
Record Opts := {
  cachePrefix : option string;
  transform : option (Buffer → Completion Buffer);
  nocache : bool
}.

(** An entry of [_cache]. *)
Record CacheEntry := { entry_headers : Headers; entry_body : Buffer }.

(** The variables the returned closure captures. *)
Record Config := {
  cache : JsValue;
  maxAge : JsValue;
  roots : list string
}.

(** The library functions the module calls: [path], [url], [querystring],
    [./utils] (mime), [Date] and the printing of a quotient of numbers. *)
Class Host := {
  sep : ascii;                                  (* Path.sep *)
  path_join : string → string → string;         (* Path.join(a, b) *)
  url_pathname : string → string;               (* parseUrl(u).pathname *)
  unescape : string → string;                   (* queryString.unescape *)
  mime_type : string → string;                  (* utils.mime.type *)
  mime_fromContent : Buffer → string → string;  (* utils.mime.fromContent *)
  toUTCString : Z → string;                     (* date.toUTCString() *)
  date_parse : string → option Z;               (* new Date(s).getTime(), None for NaN *)
  div1000_toString : Z → string;                (* String(n / 1000) *)
  string_equals_number : string → Z → bool      (* s == n *)
}.

(** ** Effects *)

Inductive Event :=
| CacheRead (key : string)
| CacheWrite (key : string)
| CacheDelete (key : string)
| CacheReset
| FsStat (filename : string)
| FsReadFile (filename : string)
| WriteHead (status : Z) (h : Headers)
| ResEnd (body : option Body).

Record Outcome (A : Type) := {
  store : gmap string CacheEntry;
  events : list Event;
  result : Completion A
}.
Arguments store {A} o.
Arguments events {A} o.
Arguments result {A} o.

(** A computation starts from the current [_cache] and gives the new
    [_cache], the effects performed and a completion. *)
Definition M (A : Type) : Type := gmap string CacheEntry → Outcome A.

Definition ret {A} (a : A) : M A :=
  λ c, {| store := c; events := []; result := Return a |}.

Definition throw {A} (e : JsError) : M A :=
  λ c, {| store := c; events := []; result := Throw e |}.

Definition bind {A B} (m : M A) (k : A → M B) : M B :=
  λ c,
    let o := m c in
    match result o with
    | Throw e => {| store := store o; events := events o; result := Throw e |}
    | Return a =>
        let o' := k a (store o) in
        {| store := store o'; events := events o ++ events o'; result := result o' |}
    end.

Notation "x <- m ;; k" := (bind m (λ x, k))
  (at level 100, m at next level, right associativity, only parsing).
Notation "m ;;; k" := (bind m (λ _, k))
  (at level 100, right associativity, only parsing).

(** [try { m } catch (err) { h err }] *)
Definition catch {A} (m : M A) (h : JsError → M A) : M A :=
  λ c,
    let o := m c in
    match result o with
    | Return _ => o
    | Throw e =>
        let o' := h e (store o) in
        {| store := store o'; events := events o ++ events o'; result := result o' |}
    end.

Definition emit (e : Event) : M unit :=
  λ c, {| store := c; events := [e]; result := Return () |}.

Definition lift {A} (r : Completion A) : M A :=
  λ c, {| store := c; events := []; result := r |}.

(** [_cache[key]] *)
Definition cacheRead (key : string) : M (option CacheEntry) :=
  λ c, {| store := c; events := [CacheRead key]; result := Return (c !! key) |}.

(** [_cache[key] = entry] *)
Definition cacheWrite (key : string) (entry : CacheEntry) : M unit :=
  λ c, {| store := <[key := entry]> c; events := [CacheWrite key]; result := Return () |}.

(** [delete _cache[key]] *)
Definition cacheDelete (key : string) : M unit :=
  λ c, {| store := delete key c; events := [CacheDelete key]; result := Return () |}.

(** [_cache = {}] *)
Definition cacheReset : M unit :=
  λ c, {| store := ∅; events := [CacheReset]; result := Return () |}.

Definition writeHead (status : Z) (h : Headers) : M unit := emit (WriteHead status h).
Definition resEnd (body : option Body) : M unit := emit (ResEnd body).

(** [fs.stat(filename, _)] *)
Definition statM (env : Env) (filename : string) : M Stat :=
  emit (FsStat filename) ;;; lift (fs_stat env filename).

(** [fs.readFile(filename, _)] *)
Definition readFileM (env : Env) (filename : string) : M Buffer :=
  emit (FsReadFile filename) ;;; lift (fs_readFile env filename).

(** ** The module, function by function *)

(** The one-character string made of a double quote. *)
Definition dquote : string := String "034"%char EmptyString.

(** Default browser cache maxAge of one year. *)
Definition MAX_AGE : Z := 31557600000.

Section StaticProvider.
Context {host : Host}.

(** [endsWith(str, pattern)], lines 265-267. *)
Definition endsWith (str pattern : string) : bool :=
  bool_decide (Js.substring (Js.length str - Js.length pattern) str = pattern).

(** [etag(stat)], lines 204-206: [stat.size + '-' + Number(stat.mtime)]. *)
Definition etag (st : Stat) : string :=
  pretty (size st) +:+ "-" +:+ pretty (mtime st).

(** [conditionalGET(req)], lines 192-194, as a truth value. *)
Definition conditionalGET (reqHeaders : gmap string string) : bool :=
  Js.truthy (reqHeaders !! "if-modified-since") || Js.truthy (reqHeaders !! "if-none-match").

Definition header_truthy (v : option HeaderValue) : bool :=
  match v with
  | Some (HStr s) => negb (bool_decide (s = EmptyString))
  | Some (HNum n) => negb (n =? 0)
  | None => false
  end.

(** [noneMatch == etag] for a string and a header value. *)
Definition loose_equal (s : string) (v : HeaderValue) : bool :=
  match v with
  | HStr t => bool_decide (s = t)
  | HNum n => string_equals_number s n
  end.

(** [new Date(v).getTime()] for a header value, [None] for NaN. *)
Definition date_of (v : HeaderValue) : option Z :=
  match v with
  | HStr s => date_parse s
  | HNum n => Some n
  end.

(** [modified(req, headers)], lines 160-182. *)
Definition modified (reqHeaders : gmap string string) (h : Headers) : bool :=
  let modifiedSince := reqHeaders !! "if-modified-since" in
  let lastModified := h !! "Last-Modified" in
  let noneMatch := reqHeaders !! "if-none-match" in
  let etag := h !! "ETag" in
  if Js.truthy noneMatch && header_truthy etag
     && match noneMatch, etag with
        | Some nm, Some et => loose_equal nm et
        | _, _ => false
        end
  then false
  else
    if Js.truthy modifiedSince && header_truthy lastModified
    then
      match modifiedSince ≫= date_parse, lastModified ≫= date_of with
      | Some since, Some last => if last <=? since then false else true
      | _, _ => true
      end
    else true.

(** [notModified(res, headers)], lines 216-225. *)
Definition notModified (h : Headers) : M unit :=
  let h := filter (λ field, Js.indexOf field.1 "Content" ≠ 0) h in
  writeHead 304 h ;;;
  resEnd None.

(** [forbidden(res)], lines 234-241. *)
Definition forbidden : M unit :=
  let body := "Forbidden" in
  writeHead 403 (<["Content-Type" := HStr "text/plain"]>
                 (<["Content-Length" := HNum (Js.length body)]> ∅)) ;;;
  resEnd (Some (Text body)).

(** [opts ? opts.cachePrefix + s : s], the expression of lines 72 and 251. *)
Definition prefixed (opts : option Opts) (s : string) : string :=
  match opts with
  | Some o => Js.concat (cachePrefix o) s
  | None => s
  end.

(** [exports.clearCache(key, opts)], lines 249-255. *)
Definition clearCache (key : option string) (opts : option Opts) : M unit :=
  match key with
  | Some k => if Js.truthy key then cacheDelete (prefixed opts k) else cacheReset
  | None => cacheReset
  end.

(** The candidate of one iteration of the loop, lines 91-96. *)
Definition candidate (root pathname : string) : string :=
  let filename := path_join root pathname in
  if bool_decide (Js.lastChar filename = Some sep)
  then filename +:+ "index.html"
  else filename.

(** The loop of lines 89-103 from index [i] on, while [stat] is unset:
    the result is [filename] and [stat] when a stat was obtained. *)
Fixpoint statLoop (env : Env) (pathname : string) (rest : list string)
  : M (option (string * Stat)) :=
  match rest with
  | [] => ret None
  | root :: rest' =>
      let filename := candidate root pathname in
      st <- catch (st <- statM env filename ;; ret (Some st))
                  (λ err, if bool_decide (code err ≠ Some "ENOENT")
                          then throw err else ret None) ;;
      match st with
      | Some st => ret (Some (filename, st))
      | None => statLoop env pathname rest'
      end
  end.

(** [maxAge / 1000] printed; [maxAge] is a number or [true] here. *)
Definition maxAge_seconds (v : JsValue) : string :=
  match v with
  | JNum n => div1000_toString n
  | JBool b => div1000_toString (if b then 1 else 0)
  | JUndefined => "NaN"
  end.

(** The header object of lines 117-129. *)
Definition responseHeaders (cfg : Config) (env : Env) (opts : option Opts)
    (filename : string) (st : Stat) (data : Buffer) : Headers :=
  let mime := mime_type filename in
  let mime := if bool_decide (mime = "application/octet-stream")
              then mime_fromContent data mime else mime in
  let h : Headers :=
    <["expires" := HStr (toUTCString (now env))]>
    (<["etag" := HStr (dquote +:+ etag st +:+ dquote)]>
    (<["cache-control" :=
         HStr (if from_option nocache false opts
               then "no-cache, no-store, must-revalidate"
               else "public, max-age=" +:+ maxAge_seconds (maxAge cfg))]>
    (<["last-modified" := HStr (toUTCString (mtime st))]>
    (<["content-length" := HNum (Z.of_nat (length data))]>
    (<["content-type" := HStr mime]> ∅))))) in
  if endsWith filename ".EXE" || endsWith filename ".exe"
  then
    let basename := Js.split sep filename in
    <["content-disposition" := HStr ("attachment; filename=" +:+ dquote +:+ Js.final basename)]> h
  else h.

(** [opts && opts.transform ? opts.transform(_, data) : data], line 108. *)
Definition applyTransform (opts : option Opts) (data : Buffer) : M Buffer :=
  match opts ≫= transform with
  | Some f => lift (f data)
  | None => ret data
  end.

(** Lines 88-147 of the returned function: resolution against the roots,
    reading, headers, conditional GET, response and write-back. *)
Definition serve (cfg : Config) (env : Env) (opts : option Opts)
    (reqHeaders : gmap string string) (head : bool) (cacheKey pathname : string)
  : M bool :=
  found <- statLoop env pathname (roots cfg) ;;
  match found with
  | None => ret false
  | Some (filename, st) =>
      if isDirectory st then ret false
      else
        data <- readFileM env filename ;;
        data <- applyTransform opts data ;;
        let h := responseHeaders cfg env opts filename st data in
        if negb (modified reqHeaders h)
        then notModified h ;;; ret true
        else
          writeHead 200 h ;;;
          resEnd (if head then None else Some (Bytes data)) ;;;
          (if truthy (cache cfg)
           then cacheWrite cacheKey {| entry_headers := h; entry_body := data |}
           else ret ()) ;;;
          ret true
  end.

(** The function returned by [exports.staticProvider], lines 65-148. *)
Definition handler (cfg : Config) (env : Env) (req : Request) (opts : option Opts)
  : M bool :=
  if bool_decide (method req ≠ "GET") && bool_decide (method req ≠ "HEAD")
  then ret false
  else
    let reqHeaders := default ∅ (headers req) in
    let url := Js.first (Js.split "?" (url req)) in
    let head := bool_decide (method req = "HEAD") in
    let cacheKey := prefixed opts url in
    let pathname := unescape (url_pathname url) in
    if Js.tilde_truthy (Js.indexOf pathname "..")
    then forbidden ;;; ret true
    else
      hit <- (if truthy (cache cfg) && negb (conditionalGET reqHeaders)
              then cacheRead cacheKey else ret None) ;;
      match hit with
      | Some hit =>
          writeHead 200 (entry_headers hit) ;;;
          resEnd (if head then None else Some (Bytes (entry_body hit))) ;;;
          ret true
      | None => serve cfg env opts reqHeaders head cacheKey pathname
      end.

(** *** What the handler computes from the request before it acts *)

(** The method test of line 66, negated. *)
Definition accepted (req : Request) : bool :=
  bool_decide (method req = "GET") || bool_decide (method req = "HEAD").

(** [req.url] after line 69. *)
Definition requestPath (req : Request) : string :=
  Js.first (Js.split "?" (url req)).

(** [cacheKey], line 72. *)
Definition cacheKey (req : Request) (opts : option Opts) : string :=
  prefixed opts (requestPath req).

(** [pathname], line 75. *)
Definition decodedPath (req : Request) : string :=
  unescape (url_pathname (requestPath req)).

(** The test of line 76. *)
Definition traversal (req : Request) : bool :=
  Js.tilde_truthy (Js.indexOf (decodedPath req) "..").

(** The first two conjuncts of line 82. *)
Definition cacheConsulted (cfg : Config) (req : Request) : bool :=
  truthy (cache cfg) && negb (conditionalGET (default ∅ (headers req))).

(** The body given to [res.end] with a 200. *)
Definition sentBody (req : Request) (data : Buffer) : option Body :=
  if bool_decide (method req = "HEAD") then None else Some (Bytes data).

End StaticProvider.

(** ** Configuration: [exports.staticProvider(options)], lines 49-63 *)

(** The fields of an options object that the constructor reads. *)
Record Options := {
  opt_maxAge : JsValue;
  opt_roots : option (list string);
  opt_root : option string;
  opt_cache : JsValue
}.

(** The argument is a root string, an options object, or missing. *)
Inductive ProviderArg :=
| ArgString (root : string)
| ArgObject (options : Options)
| ArgUndefined.

(** [process.connectEnv && process.connectEnv.staticRoot], [process.cwd()]. *)
Record Process := { staticRoot : option string; cwd : string }.

(** [a || b] on strings that may be [undefined]. *)
Definition str_or (a : option string) (b : option string) : option string :=
  if Js.truthy a then a else b.

Definition staticProvider (process : Process) (arg : ProviderArg) : Config :=
  match arg with
  | ArgString root =>
      {| cache := JUndefined; maxAge := JNum MAX_AGE; roots := [root] |}
  | _ =>
      let options :=
        match arg with
        | ArgObject o => o
        | _ => {| opt_maxAge := JUndefined; opt_roots := None;
                  opt_root := None; opt_cache := JUndefined |}
        end in
      let maxAge := opt_maxAge options in
      let roots :=
        match opt_roots options with
        | Some rs => rs
        | None =>
            [default (cwd process)
               (str_or (str_or (staticRoot process) (opt_root options))
                       (Some (cwd process)))]
        end in
      let cache := opt_cache options in
      let maxAge := if truthy cache && negb (truthy maxAge) then cache else maxAge in
      let maxAge := js_or maxAge (JNum MAX_AGE) in
      {| cache := cache; maxAge := maxAge; roots := roots |}
  end.

(** ** A host to run the handler on: POSIX paths, percent-decoding,
       a small mime table, UTC dates

    The theorems below hold for every [Host]; this one serves to evaluate
    the handler on concrete requests.  It follows Node's [path.posix],
    [querystring.unescape] on byte strings, and [Date.prototype.toUTCString]
    for years 0 to 9999. *)

Module Posix.

Definition slash : ascii := "/"%char.

(** [normalizeArray(parts, allowAboveRoot)] of Node's [path]. *)
Fixpoint normalizeArray (allowAboveRoot : bool) (stack parts : list string)
  : list string :=
  match parts with
  | [] => rev stack
  | p :: parts' =>
      if bool_decide (p = ".") then normalizeArray allowAboveRoot stack parts'
      else if bool_decide (p = "..") then
        match stack with
        | top :: stack' =>
            if bool_decide (top = "..")
            then normalizeArray allowAboveRoot (p :: stack) parts'
            else normalizeArray allowAboveRoot stack' parts'
        | [] =>
            normalizeArray allowAboveRoot
              (if allowAboveRoot then [p] else []) parts'
        end
      else normalizeArray allowAboveRoot (p :: stack) parts'
  end.

Definition nonempty (s : string) : bool := negb (bool_decide (s = EmptyString)).

Definition normalize (path : string) : string :=
  let isAbsolute := String.prefix "/" path in
  let trailingSlash := bool_decide (Js.lastChar path = Some slash) in
  let segments :=
    normalizeArray (negb isAbsolute) [] (List.filter nonempty (Js.split slash path)) in
  let p := String.concat "/" segments in
  let p := if negb (nonempty p) && negb isAbsolute then "." else p in
  let p := if nonempty p && trailingSlash then p +:+ "/" else p in
  (if isAbsolute then "/" else EmptyString) +:+ p.

(** [Path.join(a, b)] *)
Definition join (a b : string) : string :=
  normalize (String.concat "/" (List.filter nonempty [a; b])).

(** [parseUrl(u).pathname] for a path-only URL: the fragment is dropped. *)
Definition pathname (u : string) : string := Js.first (Js.split "#"%char u).

Definition hex_value (c : ascii) : option N :=
  let n := N_of_ascii c in
  if ((48 <=? n) && (n <=? 57))%N then Some (n - 48)%N
  else if ((65 <=? n) && (n <=? 70))%N then Some (n - 55)%N
  else if ((97 <=? n) && (n <=? 102))%N then Some (n - 87)%N
  else None.

(** Percent-decoding, byte by byte; a [%] not followed by two hexadecimal
    digits stays as it is. *)
Fixpoint percent_decode (s : string) : string :=
  match s with
  | EmptyString => EmptyString
  | String c s' =>
      if bool_decide (c = "%"%char) then
        match s' with
        | String a (String b rest) =>
            match hex_value a, hex_value b with
            | Some x, Some y => String (ascii_of_N (16 * x + y)) (percent_decode rest)
            | _, _ => String c (percent_decode s')
            end
        | _ => String c (percent_decode s')
        end
      else String c (percent_decode s')
  end.

(** The text after the last dot of the last path component. *)
Definition extension (filename : string) : string :=
  Js.final (Js.split "."%char (Js.final (Js.split slash filename))).

Definition mime_table : list (string * string) :=
  [("html", "text/html"); ("txt", "text/plain"); ("css", "text/css");
   ("js", "application/javascript"); ("json", "application/json");
   ("png", "image/png"); ("gif", "image/gif"); ("jpg", "image/jpeg")].

Definition mime_of_path (filename : string) : string :=
  let ext := extension filename in
  match List.find (λ row, bool_decide (row.1 = ext)) mime_table with
  | Some row => row.2
  | None => "application/octet-stream"
  end.

(** Sniffing of the PNG, GIF and JPEG signatures. *)
Definition mime_sniff (data : Buffer) (fallback : string) : string :=
  match data with
  | x89 :: x50 :: x4e :: x47 :: _ => "image/png"
  | x47 :: x49 :: x46 :: x38 :: _ => "image/gif"
  | xff :: xd8 :: xff :: _ => "image/jpeg"
  | _ => fallback
  end.

Definition pad2 (n : Z) : string :=
  if n <? 10 then "0" +:+ pretty n else pretty n.

Definition pad4 (n : Z) : string :=
  (if n <? 1000 then "0" else EmptyString) +:+
  (if n <? 100 then "0" else EmptyString) +:+
  (if n <? 10 then "0" else EmptyString) +:+ pretty n.

Definition day_names : list string :=
  ["Sun"; "Mon"; "Tue"; "Wed"; "Thu"; "Fri"; "Sat"].
Definition month_names : list string :=
  ["Jan"; "Feb"; "Mar"; "Apr"; "May"; "Jun";
   "Jul"; "Aug"; "Sep"; "Oct"; "Nov"; "Dec"].

(** Year, month (1-12) and day of the month of a day count since
    1970-01-01, in the proleptic Gregorian calendar. *)
Definition civil_from_days (days : Z) : Z * Z * Z :=
  let z := days + 719468 in
  let era := z / 146097 in
  let doe := z - era * 146097 in
  let yoe := (doe - doe / 1460 + doe / 36524 - doe / 146096) / 365 in
  let doy := doe - (365 * yoe + yoe / 4 - yoe / 100) in
  let mp := (5 * doy + 2) / 153 in
  let d := doy - (153 * mp + 2) / 5 + 1 in
  let m := if mp <? 10 then mp + 3 else mp - 9 in
  let y := yoe + era * 400 + (if m <=? 2 then 1 else 0) in
  (y, m, d).

Definition days_from_civil (y m d : Z) : Z :=
  let y := if m <=? 2 then y - 1 else y in
  let era := y / 400 in
  let yoe := y - era * 400 in
  let doy := (153 * (if 2 <? m then m - 3 else m + 9) + 2) / 5 + d - 1 in
  let doe := yoe * 365 + yoe / 4 - yoe / 100 + doy in
  era * 146097 + doe - 719468.

(** [new Date(ms).toUTCString()] *)
Definition utc_string (ms : Z) : string :=
  let days := ms / 86400000 in
  let secs := (ms mod 86400000) / 1000 in
  let '(y, m, d) := civil_from_days days in
  nth (Z.to_nat ((days + 4) mod 7)) day_names EmptyString +:+ ", " +:+
  pad2 d +:+ " " +:+ nth (Z.to_nat (m - 1)) month_names EmptyString +:+ " " +:+
  pad4 y +:+ " " +:+ pad2 (secs / 3600) +:+ ":" +:+
  pad2 ((secs / 60) mod 60) +:+ ":" +:+ pad2 (secs mod 60) +:+ " GMT".

Fixpoint digits (acc : Z) (s : string) : option Z :=
  match s with
  | EmptyString => Some acc
  | String c rest =>
      let n := Z.of_N (N_of_ascii c) in
      if (48 <=? n) && (n <=? 57) then digits (10 * acc + (n - 48)) rest else None
  end.

Fixpoint index_of (name : string) (names : list string) (i : Z) : option Z :=
  match names with
  | [] => None
  | n :: names' => if bool_decide (n = name) then Some i else index_of name names' (i + 1)
  end.

(** [new Date(s).getTime()] for the form printed by [toUTCString];
    any other text counts as an invalid date. *)
Definition parse_utc_string (s : string) : option Z :=
  let piece := λ start len, String.substring start len s in
  if bool_decide (String.length s = 29%nat)
     && bool_decide (piece 3%nat 2%nat = ", ")
     && bool_decide (piece 25%nat 4%nat = " GMT")
  then
    d ← digits 0 (piece 5%nat 2%nat);
    m ← index_of (piece 8%nat 3%nat) month_names 1;
    y ← digits 0 (piece 12%nat 4%nat);
    hh ← digits 0 (piece 17%nat 2%nat);
    mm ← digits 0 (piece 20%nat 2%nat);
    ss ← digits 0 (piece 23%nat 2%nat);
    Some ((days_from_civil y m d * 86400 + hh * 3600 + mm * 60 + ss) * 1000)
  else None.

(** [String(n / 1000)] for an integer [n] of at most fifteen digits. *)
Definition print_div1000 (n : Z) : string :=
  let a := Z.abs n in
  let r := a mod 1000 in
  let d1 := pretty (r / 100) in
  let d2 := pretty ((r / 10) mod 10) in
  let d3 := pretty (r mod 10) in
  (if n <? 0 then "-" else EmptyString) +:+ pretty (a / 1000) +:+
  (if r =? 0 then EmptyString
   else if negb (r mod 10 =? 0) then "." +:+ d1 +:+ d2 +:+ d3
   else if negb ((r / 10) mod 10 =? 0) then "." +:+ d1 +:+ d2
   else "." +:+ d1).

(** [s == n] for a canonical decimal numeral [s]. *)
Definition numeral_equals (s : string) (n : Z) : bool :=
  bool_decide (s = pretty n).

Definition host : Host := {|
  sep := slash;
  path_join := join;
  url_pathname := pathname;
  unescape := percent_decode;
  mime_type := mime_of_path;
  mime_fromContent := mime_sniff;
  toUTCString := utc_string;
  date_parse := parse_utc_string;
  div1000_toString := print_div1000;
  string_equals_number := numeral_equals
|}.

End Posix.


(** ** A small site to evaluate the handler on *)

Module Site.

Definition ENOENT : JsError :=
  {| code := Some "ENOENT"; message := "no such file or directory" |}.
Definition EACCES : JsError :=
  {| code := Some "EACCES"; message := "permission denied" |}.

Definition hi : Buffer := [x68; x69].
Definition setup : Buffer := [x4d; x5a; x90].

(** Two roots: [/www] holds [a.txt], [name.exe], [Setup.Exe], [a..b.txt],
    the directories [docs] and [both] and [docs/index.html]; [/alt] holds
    another [a.txt], a file [both] and [only.txt]; [/locked] cannot be
    searched. *)
Definition files : list (string * (Stat * option Buffer)) :=
  [("/www/a.txt", ({| size := 2; mtime := 1000; isDirectory := false |}, Some hi));
   ("/www/name.exe", ({| size := 3; mtime := 2000; isDirectory := false |}, Some setup));
   ("/www/Setup.Exe", ({| size := 3; mtime := 2000; isDirectory := false |}, Some setup));
   ("/www/a..b.txt", ({| size := 2; mtime := 1000; isDirectory := false |}, Some hi));
   ("/www/docs", ({| size := 4096; mtime := 3000; isDirectory := true |}, None));
   ("/www/both", ({| size := 4096; mtime := 3000; isDirectory := true |}, None));
   ("/www/docs/index.html",
      ({| size := 3; mtime := 4000; isDirectory := false |}, Some [x3c; x70; x3e]));
   ("/alt/a.txt", ({| size := 3; mtime := 5000; isDirectory := false |}, Some [x61; x6c; x74]));
   ("/alt/both", ({| size := 2; mtime := 5000; isDirectory := false |}, Some hi));
   ("/alt/only.txt", ({| size := 2; mtime := 6000; isDirectory := false |}, Some hi))].

Definition lookup_file (filename : string) : option (Stat * option Buffer) :=
  snd <$> List.find (λ row, bool_decide (row.1 = filename)) files.

Definition env : Env := {|
  fs_stat := λ filename,
    if String.prefix "/locked/" filename then Throw EACCES
    else match lookup_file filename with
         | Some (st, _) => Return st
         | None => Throw ENOENT
         end;
  fs_readFile := λ filename,
    match lookup_file filename with
    | Some (_, Some data) => Return data
    | Some (_, None) =>
        Throw {| code := Some "EISDIR"; message := "illegal operation on a directory" |}
    | None => Throw ENOENT
    end;
  now := 1762041600000
|}.

Definition www : Config :=
  {| cache := JUndefined; maxAge := JNum MAX_AGE; roots := ["/www"] |}.
Definition www_alt : Config :=
  {| cache := JUndefined; maxAge := JNum MAX_AGE; roots := ["/www"; "/alt"] |}.
Definition www_cached : Config :=
  {| cache := JBool true; maxAge := JNum MAX_AGE; roots := ["/www"] |}.

Definition three_roots : Config :=
  {| cache := JUndefined; maxAge := JNum MAX_AGE; roots := ["/none"; "/www"; "/alt"] |}.

Definition locked_second : Config :=
  {| cache := JUndefined; maxAge := JNum MAX_AGE; roots := ["/none"; "/locked"; "/www"] |}.

(** A request with another method. *)
Definition post (u : string) : Request :=
  {| method := "POST"; url := u; headers := Some ∅ |}.

(** An options object without [cachePrefix]. *)
Definition nocache_only : option Opts :=
  Some {| cachePrefix := None; transform := None; nocache := true |}.

(** An options object with a [cachePrefix]. *)
Definition mounted : option Opts :=
  Some {| cachePrefix := Some "site:"; transform := None; nocache := false |}.

(** An entry as a previous request for [/a.txt] could have left it. *)
Definition stale : CacheEntry :=
  {| entry_headers := {["etag" := HStr "stale"]}; entry_body := [x6f; x6c; x64] |}.

Definition get (u : string) (h : list (string * string)) : Request :=
  {| method := "GET"; url := u; headers := Some (list_to_map h) |}.

End Site.


(** ** Vocabulary of the statements *)

(** [str] contains [pattern] somewhere. *)
Definition contains (str pattern : string) : Prop :=
  ∃ before after, str = before +:+ pattern +:+ after.

(** A path has a parent-directory segment: one of its slash-separated
    components is [..]. *)
Definition hasParentSegment (path : string) : Prop :=
  In ".." (Js.split "/"%char path).

(** The error of a missing file. *)
Definition notFound (err : JsError) : Prop := code err = Some "ENOENT".

Definition isResponse (e : Event) : bool :=
  match e with
  | WriteHead _ _ | ResEnd _ => true
  | _ => false
  end.

Definition isFsAccess (e : Event) : bool :=
  match e with
  | FsStat _ | FsReadFile _ => true
  | _ => false
  end.

Definition isCacheAccess (e : Event) : bool :=
  match e with
  | CacheRead _ | CacheWrite _ | CacheDelete _ | CacheReset => true
  | _ => false
  end.

(** The header object and the two writes of [forbidden]. *)
Definition forbiddenHeaders : Headers :=
  <["Content-Type" := HStr "text/plain"]> (<["Content-Length" := HNum 9]> ∅).

Definition forbiddenResponse : list Event :=
  [WriteHead 403 forbiddenHeaders; ResEnd (Some (Text "Forbidden"))].

(** The cache key in the spec's words: [options.cachePrefix], or the empty
    string when there is none, followed by the request path. *)
Definition specCacheKey (opts : option Opts) (path : string) : string :=
  default EmptyString (opts ≫= cachePrefix) +:+ path.


(** Every root of [rs] lacks the path: the stat of its candidate fails
    with "not found". *)
Definition missingUnder {host : Host} (env : Env) (pathname : string)
    (rs : list string) : Prop :=
  Forall (λ root, ∃ err, fs_stat env (candidate root pathname) = Throw err
                         ∧ notFound err) rs.

(** The stat calls made for the roots [rs], in order. *)
Definition statsOf {host : Host} (pathname : string) (rs : list string)
  : list Event :=
  (λ root, FsStat (candidate root pathname)) <$> rs.

(** The request has the header [name] with a non-empty value. *)
Definition carries (req : Request) (name : string) : Prop :=
  ∃ value, default ∅ (headers req) !! name = Some value ∧ value ≠ EmptyString.

(** The completion of [opts.transform] on the bytes read, the bytes
    themselves when there is no transform. *)
Definition transformed (opts : option Opts) (raw : Buffer) : Completion Buffer :=
  match opts ≫= transform with
  | Some f => f raw
  | None => Return raw
  end.

(** The three effects of a cache hit, lines 82-85. *)
Definition hitResponse (req : Request) (key : string) (hit : CacheEntry)
  : list Event :=
  [CacheRead key; WriteHead 200 (entry_headers hit);
   ResEnd (sentBody req (entry_body hit))].

(** The effects of a 200 built from the file [filename], lines 107-146. *)
Definition fileResponse {host : Host} (cfg : Config) (env : Env) (req : Request)
    (opts : option Opts) (filename : string) (st : Stat) (data : Buffer)
  : list Event :=
  [FsReadFile filename;
   WriteHead 200 (responseHeaders cfg env opts filename st data);
   ResEnd (sentBody req data)]
  ++ (if truthy (cache cfg) then [CacheWrite (cacheKey req opts)] else []).

(** [_cache] after that response. *)
Definition fileStore {host : Host} (cfg : Config) (env : Env) (req : Request)
    (opts : option Opts) (filename : string) (st : Stat) (data : Buffer)
    (c : gmap string CacheEntry) : gmap string CacheEntry :=
  if truthy (cache cfg)
  then <[cacheKey req opts :=
           {| entry_headers := responseHeaders cfg env opts filename st data;
              entry_body := data |}]> c
  else c.

(** The request passes the method test and the traversal test and is not
    answered from the cache; [lookup] is the cache read made on the way. *)
Definition reachesRoots {host : Host} (cfg : Config) (req : Request)
    (opts : option Opts) (c : gmap string CacheEntry) (lookup : list Event) : Prop :=
  accepted req = true ∧ traversal req = false
  ∧ ((cacheConsulted cfg req = true ∧ c !! cacheKey req opts = None
      ∧ lookup = [CacheRead (cacheKey req opts)])
     ∨ (cacheConsulted cfg req = false ∧ lookup = [])).

(** The runs of the handler from the cache [c], one constructor for each
    way through lines 65-148. *)
Inductive Run {host : Host} (cfg : Config) (env : Env) (req : Request)
    (opts : option Opts) (c : gmap string CacheEntry) : Outcome bool → Prop :=
| RunDeclined :
    accepted req = false →
    Run cfg env req opts c {| store := c; events := []; result := Return false |}
| RunForbidden :
    accepted req = true → traversal req = true →
    Run cfg env req opts c
      {| store := c; events := forbiddenResponse; result := Return true |}
| RunHit hit :
    accepted req = true → traversal req = false →
    cacheConsulted cfg req = true → c !! cacheKey req opts = Some hit →
    Run cfg env req opts c
      {| store := c; events := hitResponse req (cacheKey req opts) hit;
         result := Return true |}
| RunMissing lookup :
    reachesRoots cfg req opts c lookup →
    missingUnder env (decodedPath req) (roots cfg) →
    Run cfg env req opts c
      {| store := c; events := lookup ++ statsOf (decodedPath req) (roots cfg);
         result := Return false |}
| RunStatError lookup before root after err :
    reachesRoots cfg req opts c lookup →
    roots cfg = (before ++ root :: after)%list →
    missingUnder env (decodedPath req) before →
    fs_stat env (candidate root (decodedPath req)) = Throw err →
    ¬ notFound err →
    Run cfg env req opts c
      {| store := c;
         events := lookup ++ statsOf (decodedPath req) (before ++ [root]);
         result := Throw err |}
| RunDirectory lookup before root after st :
    reachesRoots cfg req opts c lookup →
    roots cfg = (before ++ root :: after)%list →
    missingUnder env (decodedPath req) before →
    fs_stat env (candidate root (decodedPath req)) = Return st →
    isDirectory st = true →
    Run cfg env req opts c
      {| store := c;
         events := lookup ++ statsOf (decodedPath req) (before ++ [root]);
         result := Return false |}
| RunReadError lookup before root after st err :
    reachesRoots cfg req opts c lookup →
    roots cfg = (before ++ root :: after)%list →
    missingUnder env (decodedPath req) before →
    fs_stat env (candidate root (decodedPath req)) = Return st →
    isDirectory st = false →
    fs_readFile env (candidate root (decodedPath req)) = Throw err →
    Run cfg env req opts c
      {| store := c;
         events := lookup ++ statsOf (decodedPath req) (before ++ [root])
                   ++ [FsReadFile (candidate root (decodedPath req))];
         result := Throw err |}
| RunTransformError lookup before root after st raw err :
    reachesRoots cfg req opts c lookup →
    roots cfg = (before ++ root :: after)%list →
    missingUnder env (decodedPath req) before →
    fs_stat env (candidate root (decodedPath req)) = Return st →
    isDirectory st = false →
    fs_readFile env (candidate root (decodedPath req)) = Return raw →
    transformed opts raw = Throw err →
    Run cfg env req opts c
      {| store := c;
         events := lookup ++ statsOf (decodedPath req) (before ++ [root])
                   ++ [FsReadFile (candidate root (decodedPath req))];
         result := Throw err |}
| RunServed lookup before root after st raw data :
    reachesRoots cfg req opts c lookup →
    roots cfg = (before ++ root :: after)%list →
    missingUnder env (decodedPath req) before →
    fs_stat env (candidate root (decodedPath req)) = Return st →
    isDirectory st = false →
    fs_readFile env (candidate root (decodedPath req)) = Return raw →
    transformed opts raw = Return data →
    Run cfg env req opts c
      {| store := fileStore cfg env req opts (candidate root (decodedPath req)) st data c;
         events := lookup ++ statsOf (decodedPath req) (before ++ [root])
                   ++ fileResponse cfg env req opts
                        (candidate root (decodedPath req)) st data;
         result := Return true |}.


(** ** Vocabulary of the further properties *)

(** The decimal digits. *)
Definition isDigit (ch : ascii) : bool :=
  let n := N_of_ascii ch in ((48 <=? n) && (n <=? 57))%N.

Fixpoint onlyDigits (s : string) : bool :=
  match s with
  | EmptyString => true
  | String ch rest => isDigit ch && onlyDigits rest
  end.

(** A file that disappears between [fs.stat] and [fs.readFile]. *)
Definition vanishing : Env := {|
  fs_stat := λ filename,
    if bool_decide (filename = "/www/gone.txt")
    then Return {| size := 2; mtime := 1000; isDirectory := false |}
    else Throw Site.ENOENT;
  fs_readFile := λ _, Throw Site.ENOENT;
  now := 1762041600000
|}.

(** The site after [/www/a.txt] has been rewritten. *)
Definition rewritten : Env := {|
  fs_stat := λ filename,
    if bool_decide (filename = "/www/a.txt")
    then Return {| size := 3; mtime := 9000; isDirectory := false |}
    else fs_stat Site.env filename;
  fs_readFile := λ filename,
    if bool_decide (filename = "/www/a.txt")
    then Return [x6e; x65; x77]
    else fs_readFile Site.env filename;
  now := 1762041700000
|}.

(** Options with a transform that writes the bytes twice. *)
Definition doubling : option Opts :=
  Some {| cachePrefix := Some "x2:"; transform := Some (λ data, Return (data ++ data));
          nocache := false |}.

(** A HEAD request. *)
Definition head_of (u : string) : Request :=
  {| method := "HEAD"; url := u; headers := Some ∅ |}.

(** A handler with caching on and an empty list of roots. *)
Definition rootless : Config :=
  {| cache := JBool true; maxAge := JNum MAX_AGE; roots := [] |}.

(** * Properties *)

(** ** Strings *)

Lemma prefix_spec (p s : string) :
  String.prefix p s = true ↔ ∃ after, s = p +:+ after.
Proof.
  revert s. induction p as [|a p IH]; intros s.
  - destruct s; simpl; (split; [intros _; by eexists | done]).
  - destruct s as [|b s]; simpl.
    + split; [done | intros [after H]; discriminate H].
    + destruct (ascii_dec a b) as [->|Hne].
      * rewrite IH. split; intros [after H]; exists after; [by rewrite H | by inversion H].
      * split; [done | intros [after H]; inversion H; by subst].
Qed.

Lemma indexOf_from_spec (i : Z) (s p : string) :
  0 ≤ i →
  (Js.indexOf_from i s p = -1 ∧ ¬ contains s p)
  ∨ (i ≤ Js.indexOf_from i s p ∧ contains s p).
Proof.
  revert i. induction s as [|c s IH]; intros i Hi; cbn [Js.indexOf_from].
  - destruct (String.prefix p EmptyString) eqn:Hp.
    + right. split; [lia |]. apply prefix_spec in Hp as [after ->].
      by exists EmptyString, after.
    + left. split; [done |]. intros (before & after & H).
      destruct before; [| discriminate H]. simpl in H.
      assert (String.prefix p EmptyString = true) as Hp'
        by (apply prefix_spec; by exists after).
      congruence.
  - destruct (String.prefix p (String c s)) eqn:Hp.
    + right. split; [lia |]. apply prefix_spec in Hp as [after ->].
      by exists EmptyString, after.
    + destruct (IH (i + 1)) as [[Hm Hno]|[Hge Hyes]]; [lia | left | right].
      * split; [done |]. intros (before & after & H).
        destruct before as [|b before]; simpl in H.
        -- assert (String.prefix p (String c s) = true) as Hp'
             by (apply prefix_spec; by exists after).
           congruence.
        -- inversion H; subst. apply Hno. by exists before, after.
      * split; [lia |]. destruct Hyes as (before & after & ->).
        by exists (String c before), after.
Qed.

(** The test [~str.indexOf(pattern)] is a substring test. *)
Lemma tilde_indexOf_spec (s p : string) :
  Js.tilde_truthy (Js.indexOf s p) = true ↔ contains s p.
Proof.
  unfold Js.tilde_truthy, Js.indexOf.
  destruct (indexOf_from_spec 0 s p) as [[Hm Hno]|[Hge Hyes]]; [lia | |].
  - rewrite Hm. simpl. split; [done | intros; contradiction].
  - split; [done | intros _]. apply negb_true_iff, Z.eqb_neq.
    unfold Z.lnot. lia.
Qed.

(** The test [0 == field.indexOf(pattern)] is a prefix test. *)
Lemma indexOf_zero_spec (s p : string) :
  Js.indexOf s p = 0 ↔ ∃ after, s = p +:+ after.
Proof.
  rewrite <- prefix_spec. unfold Js.indexOf.
  destruct s as [|c s]; cbn [Js.indexOf_from]; destruct (String.prefix p _) eqn:Hp; try done.
  destruct (indexOf_from_spec (0 + 1) s p) as [[Hm _]|[Hge _]]; [lia | |];
    split; intros; try done; lia.
Qed.

Lemma split_cons (sep : ascii) (s : string) : Js.split sep s ≠ [].
Proof.
  destruct s as [|c s]; simpl; [done |].
  destruct (decide (c = sep)); [done |]. by destruct (Js.split sep s).
Qed.

Lemma split_head (sep : ascii) (s first : string) (rest : list string) :
  Js.split sep s = first :: rest → ∃ after, s = first +:+ after.
Proof.
  revert first rest. induction s as [|c s IH]; intros first rest; simpl.
  - intros [= <- <-]. by exists EmptyString.
  - destruct (decide (c = sep)) as [->|Hne].
    + intros [= <- <-]. by eexists.
    + destruct (Js.split sep s) as [|first' rest'] eqn:Hs.
      * intros [= <- <-]. by exists s.
      * intros [= <- <-]. destruct (IH _ _ eq_refl) as [after ->]. by exists after.
Qed.

(** A component of a split is a substring of the text. *)
Lemma split_component (sep : ascii) (s piece : string) :
  In piece (Js.split sep s) → contains s piece.
Proof.
  revert piece. induction s as [|c s IH]; intros piece; simpl.
  - intros [<-|[]]. by exists EmptyString, EmptyString.
  - destruct (decide (c = sep)) as [->|Hne].
    + intros [<-|Hin].
      * by exists EmptyString, (String sep s).
      * destruct (IH _ Hin) as (before & after & ->).
        by exists (String sep before), after.
    + destruct (Js.split sep s) as [|first rest] eqn:Hs; [by destruct (split_cons sep s) |].
      intros [<-|Hin].
      * destruct (split_head _ _ _ _ Hs) as [after ->].
        by exists EmptyString, after.
      * destruct (IH piece) as (before & after & ->); [by right |].
        by exists (String c before), after.
Qed.

Lemma parentSegment_contains (path : string) :
  hasParentSegment path → contains path "..".
Proof. apply split_component. Qed.


(** [str.split(sep)[0]] is the text before the first [sep]. *)
Lemma split_first_spec (sep : ascii) (s : string) :
  ∃ rest, s = Js.first (Js.split sep s) +:+ rest
          ∧ (rest = EmptyString ∨ ∃ tail, rest = String sep tail)
          ∧ ¬ contains (Js.first (Js.split sep s)) (String sep EmptyString).
Proof.
  induction s as [|c s (rest & Hs & Hrest & Hno)]; simpl.
  - exists EmptyString. split_and!; [done | by left |].
    intros (before & after & H). by destruct before.
  - destruct (decide (c = sep)) as [->|Hne]; simpl.
    + exists (String sep s). split_and!; [done | right; by eexists |].
      intros (before & after & H). by destruct before.
    + destruct (Js.split sep s) as [|first pieces] eqn:Hsplit;
        [by destruct (split_cons sep s) |].
      simpl in *. exists rest. split_and!; [by rewrite Hs at 1 | done |].
      intros (before & after & H). destruct before as [|b before].
      * inversion H. congruence.
      * inversion H as [[Hc H']]. apply Hno. by exists before, after.
Qed.

Section Properties.
Context {host : Host}.

(** ** Configuration *)

(** The constructor always leaves a truthy [maxAge]: the number given, the
    value of [cache], or the default of one year. *)
Lemma staticProvider_maxAge process arg :
  truthy (maxAge (staticProvider process arg)) = true.
Proof.
  destruct arg as [root|[m rs r ca]|]; cbn; try done.
  unfold js_or. by destruct (truthy ca) eqn:Hca, (truthy m) eqn:Hm; cbn; rewrite ?Hca, ?Hm.
Qed.

(** ** Conditional GET *)

(** [modified] looks the validators up under capitalised names. *)
Lemma modified_capitalised (rh : gmap string string) (h : Headers) :
  h !! "ETag" = None → h !! "Last-Modified" = None → modified rh h = true.
Proof.
  intros He Hl. unfold modified. rewrite He, Hl. simpl.
  by rewrite !andb_false_r.
Qed.

Lemma responseHeaders_lookup cfg env opts filename st data (field : string) :
  responseHeaders cfg env opts filename st data !! field =
    if decide (field = "content-disposition") then
      if endsWith filename ".EXE" || endsWith filename ".exe"
      then Some (HStr ("attachment; filename=" +:+ dquote
                       +:+ Js.final (Js.split sep filename)))
      else None
    else if decide (field = "expires") then Some (HStr (toUTCString (now env)))
    else if decide (field = "etag") then Some (HStr (dquote +:+ etag st +:+ dquote))
    else if decide (field = "cache-control") then
      Some (HStr (if from_option nocache false opts
                  then "no-cache, no-store, must-revalidate"
                  else "public, max-age=" +:+ maxAge_seconds (maxAge cfg)))
    else if decide (field = "last-modified") then Some (HStr (toUTCString (mtime st)))
    else if decide (field = "content-length") then Some (HNum (Z.of_nat (length data)))
    else if decide (field = "content-type") then
      Some (HStr (if bool_decide (mime_type filename = "application/octet-stream")
                  then mime_fromContent data (mime_type filename)
                  else mime_type filename))
    else None.
Proof.
  unfold responseHeaders.
  destruct (endsWith filename ".EXE" || endsWith filename ".exe");
    repeat (case_decide; simplify_map_eq; try done).
Qed.

Lemma responseHeaders_modified cfg env opts filename st data rh :
  modified rh (responseHeaders cfg env opts filename st data) = true.
Proof.
  apply modified_capitalised; by rewrite responseHeaders_lookup.
Qed.

(** [notModified] deletes the fields that start with [Content]; the header
    object of the handler has none. *)
Lemma responseHeaders_no_Content cfg env opts filename st data :
  filter (λ field : string * HeaderValue, Js.indexOf field.1 "Content" ≠ 0)
         (responseHeaders cfg env opts filename st data)
  = responseHeaders cfg env opts filename st data.
Proof.
  apply map_filter_id. intros field value Hfield.
  rewrite responseHeaders_lookup in Hfield.
  repeat case_decide; subst; try done.
Qed.

(** ** Resolution against the roots *)

Lemma statLoop_cons env pathname root rest c :
  statLoop env pathname (root :: rest) c =
    match fs_stat env (candidate root pathname) with
    | Return st =>
        {| store := c; events := [FsStat (candidate root pathname)];
           result := Return (Some (candidate root pathname, st)) |}
    | Throw err =>
        if bool_decide (code err ≠ Some "ENOENT")
        then {| store := c; events := [FsStat (candidate root pathname)];
                result := Throw err |}
        else {| store := store (statLoop env pathname rest c);
                events := FsStat (candidate root pathname)
                            :: events (statLoop env pathname rest c);
                result := result (statLoop env pathname rest c) |}
    end.
Proof.
  cbn [statLoop]. unfold bind, catch, statM, emit, lift, ret, throw. cbn.
  destruct (fs_stat env (candidate root pathname)) as [st|err]; cbn; [done |].
  case_bool_decide; cbn; [done |].
  by destruct (result (statLoop env pathname rest c)).
Qed.

Lemma statLoop_store env pathname rs c :
  store (statLoop env pathname rs c) = c.
Proof.
  induction rs as [|root rs IH]; [done |]. rewrite statLoop_cons.
  destruct (fs_stat env _) as [st|err]; [done |]. by case_bool_decide.
Qed.

(** Roots are tried in order; the first stat that succeeds ends the loop. *)
Lemma statLoop_found env pathname before root after st c :
  missingUnder env pathname before →
  fs_stat env (candidate root pathname) = Return st →
  statLoop env pathname (before ++ root :: after) c =
    {| store := c; events := statsOf pathname (before ++ [root]);
       result := Return (Some (candidate root pathname, st)) |}.
Proof.
  intros Hmiss Hst. induction Hmiss as [|r rs (err & Herr & Hnf) _ IH]; cbn [app].
  - by rewrite statLoop_cons, Hst.
  - rewrite statLoop_cons, Herr, IH. unfold notFound in Hnf.
    by rewrite bool_decide_false by (by intros []).
Qed.

(** A stat error other than "not found" ends the loop and is thrown. *)
Lemma statLoop_error env pathname before root after err c :
  missingUnder env pathname before →
  fs_stat env (candidate root pathname) = Throw err →
  ¬ notFound err →
  statLoop env pathname (before ++ root :: after) c =
    {| store := c; events := statsOf pathname (before ++ [root]);
       result := Throw err |}.
Proof.
  intros Hmiss Hst Hne. induction Hmiss as [|r rs (e & He & Hnf) _ IH]; cbn [app].
  - by rewrite statLoop_cons, Hst, bool_decide_true.
  - rewrite statLoop_cons, He, IH. unfold notFound in Hnf.
    by rewrite bool_decide_false by (by intros []).
Qed.

(** When every root lacks the path the loop ends without a stat. *)
Lemma statLoop_missing env pathname rs c :
  missingUnder env pathname rs →
  statLoop env pathname rs c =
    {| store := c; events := statsOf pathname rs; result := Return None |}.
Proof.
  intros Hmiss. induction Hmiss as [|r rs (e & He & Hnf) _ IH]; [done |].
  rewrite statLoop_cons, He, IH. unfold notFound in Hnf.
  by rewrite bool_decide_false by (by intros []).
Qed.

(** The three ways the loop can end. *)
Lemma statLoop_cases env pathname rs c :
  (missingUnder env pathname rs
   ∧ statLoop env pathname rs c =
       {| store := c; events := statsOf pathname rs; result := Return None |})
  ∨ (∃ before root after,
       rs = (before ++ root :: after)%list ∧ missingUnder env pathname before
       ∧ ((∃ st, fs_stat env (candidate root pathname) = Return st
                 ∧ statLoop env pathname rs c =
                     {| store := c; events := statsOf pathname (before ++ [root]);
                        result := Return (Some (candidate root pathname, st)) |})
          ∨ (∃ err, fs_stat env (candidate root pathname) = Throw err
                    ∧ ¬ notFound err
                    ∧ statLoop env pathname rs c =
                        {| store := c; events := statsOf pathname (before ++ [root]);
                           result := Throw err |}))).
Proof.
  induction rs as [|root rs IH].
  - left. split; [constructor | done].
  - destruct (fs_stat env (candidate root pathname)) as [st|err] eqn:Hst.
    + right. exists [], root, rs. split_and!; [done | constructor |].
      left. exists st. split; [done |].
      by apply (statLoop_found env pathname [] root rs st c); [constructor |].
    + destruct (decide (code err = Some "ENOENT")) as [Hnf|Hnf].
      * assert (missingUnder env pathname [root]) as Hroot
          by (constructor; [by exists err | constructor]).
        destruct IH as [[Hmiss Heq]|(before & r & after & -> & Hmiss & Hr)].
        -- left. split; [by constructor; [exists err |] |].
           apply statLoop_missing. by constructor; [exists err |].
        -- right. exists (root :: before), r, after.
           split_and!; [done | by constructor; [exists err |] |].
           destruct Hr as [(st & Hs & _)|(e & He & Hne & _)]; [left | right].
           ++ exists st. split; [done |].
              apply (statLoop_found env pathname (root :: before)); [| done].
              by constructor; [exists err |].
           ++ exists e. split_and!; [done | done |].
              apply (statLoop_error env pathname (root :: before)); [| done | done].
              by constructor; [exists err |].
      * right. exists [], root, rs. split_and!; [done | constructor |].
        right. exists err. split_and!; [done | done |].
        by apply (statLoop_error env pathname [] root rs err c); [constructor | |].
Qed.

(** ** The handler, path by path *)

Lemma accepted_spec req :
  accepted req = true ↔ method req = "GET" ∨ method req = "HEAD".
Proof.
  unfold accepted. rewrite orb_true_iff, !bool_decide_eq_true. done.
Qed.

Lemma conditionalGET_spec req :
  conditionalGET (default ∅ (headers req)) = true
  ↔ carries req "if-modified-since" ∨ carries req "if-none-match".
Proof.
  unfold conditionalGET, carries. rewrite orb_true_iff.
  assert (∀ v, Js.truthy v = true ↔ ∃ value, v = Some value ∧ value ≠ EmptyString)
    as Htruthy.
  { intros [value|]; simpl.
    - rewrite negb_true_iff, bool_decide_eq_false.
      split; [by exists value | by intros (? & [= <-] & ?)].
    - split; [done | by intros (? & ? & _)]. }
  by rewrite !Htruthy.
Qed.

(** Lines 88-147 in one equation. *)
Lemma serve_unfold cfg env req opts c :
  serve cfg env opts (default ∅ (headers req)) (bool_decide (method req = "HEAD"))
        (cacheKey req opts) (decodedPath req) c =
    let s := statLoop env (decodedPath req) (roots cfg) c in
    match result s with
    | Throw err => {| store := c; events := events s; result := Throw err |}
    | Return None => {| store := c; events := events s; result := Return false |}
    | Return (Some (filename, st)) =>
        if isDirectory st
        then {| store := c; events := events s; result := Return false |}
        else
          match fs_readFile env filename with
          | Throw err =>
              {| store := c; events := events s ++ [FsReadFile filename];
                 result := Throw err |}
          | Return raw =>
              match transformed opts raw with
              | Throw err =>
                  {| store := c; events := events s ++ [FsReadFile filename];
                     result := Throw err |}
              | Return data =>
                  {| store := fileStore cfg env req opts filename st data c;
                     events := events s
                               ++ fileResponse cfg env req opts filename st data;
                     result := Return true |}
              end
          end
    end.
Proof.
  unfold serve, bind at 1. cbv zeta. rewrite statLoop_store.
  destruct (result (statLoop env (decodedPath req) (roots cfg) c))
    as [[[filename st]|]|err]; [| by rewrite app_nil_r | done].
  destruct (isDirectory st); [by rewrite app_nil_r |].
  unfold bind, readFileM, applyTransform, transformed, emit, lift, ret,
    fileResponse, fileStore, sentBody, writeHead, resEnd, cacheWrite. cbn.
  destruct (fs_readFile env filename) as [raw|err]; cbn; [| done].
  destruct (opts ≫= transform) as [f|]; cbn.
  - destruct (f raw) as [data|err]; cbn; [| done].
    rewrite responseHeaders_modified. cbn.
    by destruct (truthy (cache cfg)).
  - rewrite responseHeaders_modified. cbn.
    by destruct (truthy (cache cfg)).
Qed.

(** Lines 65-86 in one equation. *)
Lemma handler_unfold cfg env req opts c :
  handler cfg env req opts c =
    if negb (accepted req)
    then {| store := c; events := []; result := Return false |}
    else if traversal req
    then {| store := c; events := forbiddenResponse; result := Return true |}
    else
      let s := serve cfg env opts (default ∅ (headers req))
                     (bool_decide (method req = "HEAD"))
                     (cacheKey req opts) (decodedPath req) c in
      if cacheConsulted cfg req
      then
        match c !! cacheKey req opts with
        | Some hit =>
            {| store := c; events := hitResponse req (cacheKey req opts) hit;
               result := Return true |}
        | None =>
            {| store := store s; events := CacheRead (cacheKey req opts) :: events s;
               result := result s |}
        end
      else s.
Proof.
  unfold handler, accepted, traversal, cacheConsulted, decodedPath, cacheKey,
    requestPath, hitResponse, sentBody.
  destruct (decide (method req = "GET")) as [Hget|Hget];
    destruct (decide (method req = "HEAD")) as [Hhead|Hhead];
    [congruence | | |];
    rewrite ?(bool_decide_true _ Hget), ?(bool_decide_false _ Hget),
      ?(bool_decide_true _ Hhead), ?(bool_decide_false _ Hhead);
    rewrite ?bool_decide_true by (by intros ?);
    rewrite ?bool_decide_false by (by intros []);
    cbn [andb orb negb]; try done.
  all: destruct (Js.tilde_truthy _); [done |].
  all: destruct (truthy (cache cfg) && negb (conditionalGET _)); cbn.
  all: unfold bind, cacheRead, ret; cbn.
  all: try (destruct (c !! _) as [hit|]; cbn; [done |]).
  all: match goal with |- context [result ?s] => by destruct s as [? ? []] end.
Qed.

Lemma serve_run cfg env req opts c lookup :
  reachesRoots cfg req opts c lookup →
  let s := serve cfg env opts (default ∅ (headers req))
                 (bool_decide (method req = "HEAD"))
                 (cacheKey req opts) (decodedPath req) c in
  Run cfg env req opts c
    {| store := store s; events := lookup ++ events s; result := result s |}.
Proof.
  intros Hreach. cbv zeta. rewrite serve_unfold. cbv zeta.
  destruct (statLoop_cases env (decodedPath req) (roots cfg) c)
    as [[Hmiss ->]|(before & root & after & Hroots & Hmiss
                    & [(st & Hst & ->)|(err & Hst & Hne & ->)])]; cbn.
  - by apply RunMissing.
  - destruct (isDirectory st) eqn:Hdir; cbn.
    { by eapply RunDirectory. }
    destruct (fs_readFile env _) as [raw|err] eqn:Hread; cbn.
    + destruct (transformed opts raw) as [data|err] eqn:Htrans; cbn.
      * by eapply RunServed.
      * by eapply RunTransformError.
    + by eapply RunReadError.
  - by eapply RunStatError.
Qed.

(** Every call of the handler is one of the runs. *)
Lemma handler_run cfg env req opts c :
  Run cfg env req opts c (handler cfg env req opts c).
Proof.
  rewrite handler_unfold.
  destruct (accepted req) eqn:Hacc; cbn [negb]; [| by apply RunDeclined].
  destruct (traversal req) eqn:Htrav; [by apply RunForbidden |].
  cbv zeta. destruct (cacheConsulted cfg req) eqn:Hcons.
  - destruct (c !! cacheKey req opts) as [hit|] eqn:Hhit; [by apply RunHit |].
    apply (serve_run cfg env req opts c [CacheRead (cacheKey req opts)]).
    split_and!; [done | done |]. by left.
  - match goal with |- Run _ _ _ _ _ ?s => destruct s as [st ev r] eqn:Hs end.
    pose proof (serve_run cfg env req opts c []) as Hrun.
    cbv zeta in Hrun. rewrite Hs in Hrun. apply Hrun.
    split_and!; [done | done |]. by right.
Qed.

End Properties.

Section Claims.
Context {host : Host}.

Lemma elem_of_statsOf (e : Event) pathname rs :
  e ∈ statsOf pathname rs → ∃ root, e = FsStat (candidate root pathname).
Proof.
  unfold statsOf. rewrite list_elem_of_fmap. intros (root & -> & _). by exists root.
Qed.

Lemma elem_of_lookup cfg req opts c lookup (e : Event) :
  reachesRoots cfg req opts c lookup → e ∈ lookup →
  e = CacheRead (cacheKey req opts).
Proof.
  intros (_ & _ & [(_ & _ & ->)|(_ & ->)]) Hin.
  - by apply list_elem_of_singleton in Hin.
  - by apply not_elem_of_nil in Hin.
Qed.

(** The handler never answers 304: [modified] is always true of the
    headers the handler builds. *)
Lemma handler_never_304 cfg env req opts c h :
  WriteHead 304 h ∉ events (handler cfg env req opts c).
Proof.
  destruct (handler_run cfg env req opts c); cbn;
    unfold forbiddenResponse, hitResponse, fileResponse;
    rewrite ?elem_of_app, ?elem_of_cons, ?elem_of_nil;
    intros Hin; destruct_or?; try discriminate; try done;
    try (by eapply elem_of_lookup in Hin);
    try (by apply elem_of_statsOf in Hin as [? ?]).
  all: destruct (truthy (cache cfg));
    rewrite ?elem_of_cons, ?elem_of_nil in *; by destruct_or?.
Qed.

(** C2, amended: for every GET or HEAD request whose percent-decoded path
    has a parent-directory segment, the handler writes 403 with the
    plain-text body "Forbidden" and returns true; these two writes are all
    it does, so no cache lookup and no filesystem access precede them, and
    neither the cache nor the roots matter. *)
Theorem C2_parent_segment_forbidden cfg env req opts c :
  method req = "GET" ∨ method req = "HEAD" →
  hasParentSegment (decodedPath req) →
  let o := handler cfg env req opts c in
  o = {| store := c;
         events := [WriteHead 403 forbiddenHeaders; ResEnd (Some (Text "Forbidden"))];
         result := Return true |}
  ∧ forbiddenHeaders !! "Content-Type" = Some (HStr "text/plain")
  ∧ ∀ e, e ∈ events o → isCacheAccess e = false ∧ isFsAccess e = false.
Proof.
  intros Hmethod Hseg o. subst o. rewrite handler_unfold.
  apply accepted_spec in Hmethod as ->.
  apply parentSegment_contains, tilde_indexOf_spec in Hseg.
  unfold traversal. rewrite Hseg. cbn. split_and!; [done | done |].
  intros e Hin. unfold forbiddenResponse in Hin.
  rewrite !elem_of_cons, elem_of_nil in Hin.
  by destruct Hin as [->|[->|[]]].
Qed.

(** C10, amended: the traversal check is a substring test.  For every
    request whose decoded path contains [..] anywhere, also inside a single
    file name such as [/a..b.txt], a GET or HEAD is answered 403 Forbidden;
    whatever the method, the handler writes nothing but that 403, touches
    neither the cache nor the filesystem, and so never serves the path,
    even when the file exists under a root. *)
Theorem C10_substring_forbidden cfg env req opts c :
  contains (decodedPath req) ".." →
  let o := handler cfg env req opts c in
  (method req = "GET" ∨ method req = "HEAD" →
   o = {| store := c; events := forbiddenResponse; result := Return true |})
  ∧ (∀ e, e ∈ events o → e ∈ forbiddenResponse)
  ∧ store o = c.
Proof.
  intros Hsub o. subst o. apply tilde_indexOf_spec in Hsub.
  rewrite handler_unfold. fold (traversal req) in Hsub. rewrite Hsub.
  destruct (accepted req) eqn:Hacc; cbn.
  - by split_and!.
  - split_and!; [| by intros e Hin%not_elem_of_nil | done].
    intros Hmethod%accepted_spec. congruence.
Qed.

(** C7, amended: for a GET or HEAD request whose decoded path does not
    contain [..], with caching enabled: when neither [if-modified-since]
    nor [if-none-match] has a non-empty value and [_cache] has an entry for
    the cache key, the handler reads that entry, writes 200 with the stored
    headers and the stored body (no body for HEAD), returns true and does
    nothing else, so there is no filesystem access; when either header has
    a non-empty value, [_cache] is not read, the first effect is the stat
    of the first root's candidate, and the headers of a 200 are those
    computed from the stat and the bytes obtained in this call. *)
Theorem C7_cache_hit_and_bypass cfg env req opts c :
  method req = "GET" ∨ method req = "HEAD" →
  ¬ contains (decodedPath req) ".." →
  truthy (cache cfg) = true →
  let o := handler cfg env req opts c in
  (¬ carries req "if-modified-since" → ¬ carries req "if-none-match" →
   ∀ hit, c !! cacheKey req opts = Some hit →
     o = {| store := c;
            events := [CacheRead (cacheKey req opts);
                       WriteHead 200 (entry_headers hit);
                       ResEnd (if bool_decide (method req = "HEAD") then None
                               else Some (Bytes (entry_body hit)))];
            result := Return true |}
     ∧ ∀ e, e ∈ events o → isFsAccess e = false)
  ∧ (carries req "if-modified-since" ∨ carries req "if-none-match" →
     (∀ key, CacheRead key ∉ events o)
     ∧ (∀ root rest, roots cfg = root :: rest →
          ∃ more, events o = FsStat (candidate root (decodedPath req)) :: more)
     ∧ (∀ h, WriteHead 200 h ∈ events o →
          ∃ filename st raw data,
            FsStat filename ∈ events o ∧ fs_stat env filename = Return st
            ∧ fs_readFile env filename = Return raw
            ∧ transformed opts raw = Return data
            ∧ h = responseHeaders cfg env opts filename st data)).
Proof.
  intros Hmethod%accepted_spec Hsub Hcache o. subst o.
  assert (traversal req = false) as Htrav.
  { destruct (traversal req) eqn:Ht; [| done].
    by apply tilde_indexOf_spec in Ht. }
  split.
  - intros Hims Hinm hit Hhit. rewrite handler_unfold, Hmethod, Htrav. cbn.
    assert (cacheConsulted cfg req = true) as ->.
    { unfold cacheConsulted. rewrite Hcache. cbn. apply negb_true_iff.
      destruct (conditionalGET _) eqn:Hc; [| done].
      apply conditionalGET_spec in Hc as [?|?]; contradiction. }
    rewrite Hhit. unfold hitResponse, sentBody. cbn. split; [done |].
    intros e Hin. rewrite !elem_of_cons, elem_of_nil in Hin.
    by destruct Hin as [->|[->|[->|[]]]].
  - intros Hcond%conditionalGET_spec.
    assert (cacheConsulted cfg req = false) as Hcons.
    { unfold cacheConsulted. by rewrite Hcond, andb_false_r. }
    assert (∀ lookup, reachesRoots cfg req opts c lookup → lookup = []) as Hnil.
    { intros lookup (_ & _ & [(? & _)|(_ & ->)]); [congruence | done]. }
    destruct (handler_run cfg env req opts c); try congruence;
      match goal with H : reachesRoots _ _ _ _ _ |- _ => apply Hnil in H as -> end;
      cbn [app events]; unfold fileResponse.
    all: split_and!.
    all: try (intros key Hin;
              rewrite ?elem_of_app, ?elem_of_cons, ?elem_of_nil in Hin;
              destruct_or?; try discriminate; try done;
              try (by apply elem_of_statsOf in Hin as [? ?]);
              destruct (truthy (cache cfg));
              rewrite ?elem_of_cons, ?elem_of_nil in Hin;
              by destruct_or?).
    all: try (intros r rest Hr;
              match goal with
              | H : roots _ = (?before ++ _)%list |- _ =>
                  rewrite H in Hr; destruct before; injection Hr as <- <-;
                  cbn; by eexists
              | _ => rewrite Hr; cbn; by eexists
              end).
    all: try (intros h Hin;
              rewrite ?elem_of_app, ?elem_of_cons, ?elem_of_nil in Hin;
              destruct_or?; try discriminate; try done;
              try (by apply elem_of_statsOf in Hin as [? ?])).
    + injection Hin as ->. eexists _, _, _, _. split_and!; try done.
      rewrite elem_of_app. left.
      unfold statsOf. rewrite fmap_app, elem_of_app. right. by left.
    + destruct (truthy (cache cfg));
        rewrite ?elem_of_cons, ?elem_of_nil in Hin; by destruct_or?.
Qed.

(** Membership of an event in the effects of a run, case by case. *)
Ltac event_cases H :=
  cbn [events app] in H;
  unfold forbiddenResponse, hitResponse, fileResponse in H;
  try match type of H with
      | context [if truthy ?v then _ else _] => destruct (truthy v) eqn:?
      end;
  repeat first [rewrite elem_of_app in H | rewrite elem_of_cons in H
               | rewrite elem_of_nil in H];
  destruct_or?;
  try discriminate H; try contradiction;
  try (eapply elem_of_lookup in H; [| eassumption]; try discriminate H);
  try (apply elem_of_statsOf in H as [? H]; try discriminate H).





(** C3: with the roots before [root] all lacking the path, the candidate
    for [root] is [Path.join(root, decodedPath)], with [index.html]
    appended when that ends in the separator.  The loop has then made one
    stat per root, in order, each "not found" passing to the next root.
    If the stat of the candidate succeeds the loop stops there: no later
    root is tried, the only file a call reads is this candidate, and a
    request that reaches the roots and can read it is answered with it.  If
    that stat fails with another error the loop stops and the error is
    thrown to the caller of the handler. *)
Theorem C3_roots_in_order cfg env req opts c before root after :
  roots cfg = before ++ root :: after →
  missingUnder env (decodedPath req) before →
  let pathname := decodedPath req in
  let joined := path_join root pathname in
  let filename :=
    if bool_decide (Js.lastChar joined = Some sep)
    then joined +:+ "index.html" else joined in
  let o := handler cfg env req opts c in
  (∀ st, fs_stat env filename = Return st →
     statLoop env pathname (roots cfg) c =
       {| store := c; events := statsOf pathname (before ++ [root]);
          result := Return (Some (filename, st)) |}
     ∧ (∀ f, FsReadFile f ∈ events o → f = filename)
     ∧ (∀ lookup raw data,
          reachesRoots cfg req opts c lookup → isDirectory st = false →
          fs_readFile env filename = Return raw →
          transformed opts raw = Return data →
          o = {| store := fileStore cfg env req opts filename st data c;
                 events := lookup ++ statsOf pathname (before ++ [root])
                           ++ fileResponse cfg env req opts filename st data;
                 result := Return true |}))
  ∧ (∀ err, fs_stat env filename = Throw err → ¬ notFound err →
     statLoop env pathname (roots cfg) c =
       {| store := c; events := statsOf pathname (before ++ [root]);
          result := Throw err |}
     ∧ (∀ lookup, reachesRoots cfg req opts c lookup → result o = Throw err)).
Proof.
  intros Hroots Hmiss pathname joined filename o.
  change filename with (candidate root (decodedPath req)) in *.
  subst pathname o. clear joined filename. split.
  - intros st Hst.
    pose proof (statLoop_found env (decodedPath req) before root after st c
                  Hmiss Hst) as Hloop.
    rewrite <- Hroots in Hloop. split_and!; [done | |].
    + intros f Hin. rewrite handler_unfold in Hin.
      destruct (accepted req); cbn in Hin; [| by apply not_elem_of_nil in Hin].
      destruct (traversal req); [by event_cases Hin |].
      cbv zeta in Hin. rewrite serve_unfold in Hin. cbv zeta in Hin.
      rewrite Hloop in Hin. cbn [result events store] in Hin.
      repeat case_match; event_cases Hin; by simplify_eq.
    + intros lookup raw data (Hacc & Htrav & Hlook) Hdir Hread Htrans.
      rewrite handler_unfold, Hacc, Htrav, serve_unfold, Hloop. cbn.
      rewrite Hdir, Hread, Htrans.
      by destruct Hlook as [(-> & -> & ->)|(-> & ->)].
  - intros err Hst Hne.
    pose proof (statLoop_error env (decodedPath req) before root after err c
                  Hmiss Hst Hne) as Hloop.
    rewrite <- Hroots in Hloop. split; [done |].
    intros lookup (Hacc & Htrav & Hlook).
    rewrite handler_unfold, Hacc, Htrav, serve_unfold, Hloop. cbn.
    by destruct Hlook as [(-> & -> & ->)|(-> & ->)].
Qed.

Lemma cacheKey_spec req opts :
  opts = None ∨ (∃ o prefix, opts = Some o ∧ cachePrefix o = Some prefix) →
  cacheKey req opts = specCacheKey opts (requestPath req).
Proof.
  unfold cacheKey, specCacheKey, prefixed.
  intros [->|(o & prefix & -> & Hprefix)]; [done |]. cbn. by rewrite Hprefix.
Qed.

(** The cache key of a call: the request path is [req.url] up to its first
    question mark.  When no options object is passed, or one that carries a
    [cachePrefix] string, the key of every cache read and of every cache
    write of the call is the prefix followed by the request path, which is the
    request path itself when there is no options object; the call leaves
    [_cache] as it was or with one entry written under that key. *)
Theorem cache_key_with_prefix cfg env req opts c :
  opts = None ∨ (∃ o prefix, opts = Some o ∧ cachePrefix o = Some prefix) →
  let key := specCacheKey opts (requestPath req) in
  let o := handler cfg env req opts c in
  (∃ query, url req = requestPath req +:+ query
            ∧ (query = EmptyString ∨ ∃ q, query = String "?" q)
            ∧ ¬ contains (requestPath req) "?")
  ∧ (opts = None → key = requestPath req)
  ∧ (∀ k, CacheRead k ∈ events o ∨ CacheWrite k ∈ events o → k = key)
  ∧ (store o = c ∨ ∃ entry, store o = <[key := entry]> c).
Proof.
  intros Hopts key o. subst key o.
  rewrite <- (cacheKey_spec req opts Hopts). split_and!.
  - apply split_first_spec.
  - by intros ->.
  - intros k. destruct (handler_run cfg env req opts c); intros [Hin|Hin];
      event_cases Hin; by simplify_eq.
  - destruct (handler_run cfg env req opts c); cbn; auto.
    unfold fileStore. destruct (truthy (cache cfg)); eauto.
Qed.

(** C9, amended: called with a non-empty key, and with no options object
    or one that carries a [cachePrefix] string, [clearCache] deletes the
    entry at the prefix followed by the key and leaves every other entry as it
    was; a later request with that cache key is not answered from the
    cache: the body of a 200 is what the file read in that call (and the
    transform) gives.  Called without a key it empties [_cache]. *)
Theorem C9_clearCache key opts c :
  let target := specCacheKey opts key in
  let cleared := store (clearCache (Some key) opts c) in
  (key ≠ EmptyString →
   opts = None ∨ (∃ o prefix, opts = Some o ∧ cachePrefix o = Some prefix) →
   cleared = delete target c
   ∧ cleared !! target = None
   ∧ (∀ other, other ≠ target → cleared !! other = c !! other)
   ∧ (∀ cfg env req opts' h,
        cacheKey req opts' = target →
        let o := handler cfg env req opts' cleared in
        WriteHead 200 h ∈ events o →
        ∃ filename raw data,
          FsReadFile filename ∈ events o
          ∧ fs_readFile env filename = Return raw
          ∧ transformed opts' raw = Return data
          ∧ ResEnd (sentBody req data) ∈ events o))
  ∧ store (clearCache None opts c) = ∅.
Proof.
  intros target cleared. split; [| done]. intros Hkey Hopts.
  assert (cleared = delete target c) as Hcleared.
  { subst cleared target. unfold clearCache. cbn.
    rewrite bool_decide_false by done. cbn.
    unfold specCacheKey, prefixed.
    destruct Hopts as [->|(o & prefix & -> & Hprefix)]; [done |].
    cbn. by rewrite Hprefix. }
  split_and!.
  - done.
  - rewrite Hcleared. apply lookup_delete_eq.
  - intros other Hne. rewrite Hcleared. by apply lookup_delete_ne.
  - intros cfg env req opts' h Hk o Hin. subst o.
    assert (cleared !! cacheKey req opts' = None) as Hnone
      by (rewrite Hk, Hcleared; apply lookup_delete_eq).
    destruct (handler_run cfg env req opts' cleared);
      event_cases Hin; try congruence.
    all: injection Hin as ->; eexists _, raw, data; cbn [events].
    all: unfold fileResponse; split_and!; [| done | done |];
      rewrite !elem_of_app; right; right; left; rewrite !elem_of_cons; auto.
Qed.

End Claims.

(** ** The claims on the example site *)

Section Examples.
Local Existing Instance Posix.host.

(** C1: the second request carries the etag of the first 200 in
    [if-none-match]; the handler answers 200 again, with the same headers
    ([content-type] and [content-length] included) and the whole body. *)
Theorem C1_matching_etag_answered_200 :
  let tag := dquote +:+ "2-1000" +:+ dquote in
  let first := handler Site.www Site.env (Site.get "/a.txt" []) None ∅ in
  let second :=
    handler Site.www Site.env (Site.get "/a.txt" [("if-none-match", tag)]) None ∅ in
  events first =
    [FsStat "/www/a.txt"; FsReadFile "/www/a.txt";
     WriteHead 200
       (list_to_map
          [("content-type", HStr "text/plain"); ("content-length", HNum 2);
           ("last-modified", HStr "Thu, 01 Jan 1970 00:00:01 GMT");
           ("cache-control", HStr "public, max-age=31557600");
           ("etag", HStr tag);
           ("expires", HStr "Sun, 02 Nov 2025 00:00:00 GMT")]);
     ResEnd (Some (Bytes Site.hi))]
  ∧ events second = events first
  ∧ result second = Return true.
Proof. by vm_compute. Qed.

(** C5: for [/www/name.exe] the [content-disposition] value is
    [attachment; filename=], a double quote and [name.exe], with no closing
    quote after it; for [/www/Setup.Exe] there is no [content-disposition]
    at all. *)
Theorem C5_exe_disposition :
  let lower := handler Site.www Site.env (Site.get "/name.exe" []) None ∅ in
  let mixed := handler Site.www Site.env (Site.get "/Setup.Exe" []) None ∅ in
  (∃ h, WriteHead 200 h ∈ events lower
        ∧ h !! "content-disposition"
          = Some (HStr ("attachment; filename=" +:+ dquote +:+ "name.exe")))
  ∧ (∃ h, WriteHead 200 h ∈ events mixed ∧ h !! "content-disposition" = None).
Proof.
  split; eexists; (split; [vm_compute; do 2 right; left |]); by vm_compute.
Qed.

(** C2 as stated fails for a method that line 66 declines: the decoded
    path has a parent-directory segment, and the handler returns false
    without writing anything. *)
Lemma C2_counterexample :
  hasParentSegment (decodedPath (Site.post "/../etc/passwd"))
  ∧ handler Site.www Site.env (Site.post "/../etc/passwd") None ∅
    = {| store := ∅; events := []; result := Return false |}.
Proof. split; [vm_compute; tauto | by vm_compute]. Qed.

(** GET [/%2e%2e/etc/passwd], with caching on and an entry under the key. *)
Lemma C2_witness :
  let req := Site.get "/%2e%2e/etc/passwd" [] in
  let c : gmap string CacheEntry := {["/%2e%2e/etc/passwd" := Site.stale]} in
  decodedPath req = "/../etc/passwd"
  ∧ hasParentSegment (decodedPath req)
  ∧ handler Site.www_cached Site.env req None c
    = {| store := c; events := forbiddenResponse; result := Return true |}.
Proof.
  intros req c.
  assert (hasParentSegment (decodedPath req)) as Hseg by (vm_compute; tauto).
  split_and!; [done | exact Hseg |].
  apply (C2_parent_segment_forbidden Site.www_cached Site.env req None c);
    [by left | exact Hseg].
Defined.

(** C10 as stated fails for a method that line 66 declines: the decoded
    path contains [..], and nothing is answered. *)
Lemma C10_counterexample :
  contains (decodedPath (Site.post "/a..b.txt")) ".."
  ∧ handler Site.www Site.env (Site.post "/a..b.txt") None ∅
    = {| store := ∅; events := []; result := Return false |}.
Proof. split; [by exists "/a", "b.txt" | by vm_compute]. Qed.

(** [/a..b.txt] has no parent-directory segment and exists under [/www];
    a GET for it is answered 403. *)
Lemma C10_witness :
  let req := Site.get "/a..b.txt" [] in
  contains (decodedPath req) ".."
  ∧ ¬ hasParentSegment (decodedPath req)
  ∧ fs_stat Site.env "/www/a..b.txt"
    = Return {| size := 2; mtime := 1000; isDirectory := false |}
  ∧ handler Site.www Site.env req None ∅
    = {| store := ∅; events := forbiddenResponse; result := Return true |}.
Proof.
  intros req.
  assert (contains (decodedPath req) "..") as Hsub by (by exists "/a", "b.txt").
  split_and!; [exact Hsub | | done |].
  - vm_compute. intros [H|[H|[]]]; discriminate H.
  - apply (C10_substring_forbidden Site.www Site.env req None ∅ Hsub). by left.
Defined.

(** C3 on three roots: [/none] lacks [/a.txt], [/www] and [/alt] both have
    it; the file of [/www] is served and [/alt] is not tried.  With
    [/locked] before [/www] the stat fails with EACCES, which is thrown. *)
Lemma C3_witness :
  let req := Site.get "/a.txt" [] in
  let st := {| size := 2; mtime := 1000; isDirectory := false |} in
  roots Site.three_roots = ["/none"] ++ "/www" :: ["/alt"]
  ∧ missingUnder Site.env (decodedPath req) ["/none"]
  ∧ fs_stat Site.env "/alt/a.txt"
    = Return {| size := 3; mtime := 5000; isDirectory := false |}
  ∧ candidate "/www" "/a.txt" = "/www" +:+ "/a.txt"
  ∧ candidate "/www" "/docs/" = "/www" +:+ "/docs/" +:+ "index.html"
  ∧ handler Site.three_roots Site.env req None ∅ =
      {| store := ∅;
         events := [FsStat "/none/a.txt"; FsStat "/www/a.txt"]
                   ++ fileResponse Site.three_roots Site.env req None
                        "/www/a.txt" st Site.hi;
         result := Return true |}
  ∧ result (handler Site.locked_second Site.env req None ∅) = Throw Site.EACCES.
Proof.
  intros req st.
  assert (missingUnder Site.env (decodedPath req) ["/none"]) as Hmiss.
  { constructor; [| constructor]. exists Site.ENOENT. by vm_compute. }
  assert (reachesRoots Site.three_roots req None ∅ []) as Hreach
    by (split_and!; [done | done | by right]).
  split_and!; [done | exact Hmiss | done | done | done | |].
  - destruct (C3_roots_in_order Site.three_roots Site.env req None ∅
                ["/none"] "/www" ["/alt"] eq_refl Hmiss) as [Hfound _].
    destruct (Hfound st eq_refl) as (_ & _ & Hserved).
    by apply (Hserved [] Site.hi Site.hi).
  - destruct (C3_roots_in_order Site.locked_second Site.env req None ∅
                ["/none"] "/locked" ["/www"] eq_refl Hmiss) as [_ Herror].
    destruct (Herror Site.EACCES eq_refl) as [_ Hthrown]; [by intros [=] |].
    by apply (Hthrown []).
Defined.

(** C4: with an options object that has no [cachePrefix] the key is the
    text [undefined] followed by the request path, for every request.  A GET
    for [/docs/?v=1] with the options [{nocache: true}] reads and writes the
    key [undefined/docs/] and no other, where the claim has [/docs/];
    [_cache] then has no entry at [/docs/], and [clearCache("/docs/")]
    without options leaves the entry that was written. *)
Theorem C4_missing_prefix_keyed_undefined :
  let req := Site.get "/docs/?v=1" [] in
  let o := handler Site.www_cached Site.env req Site.nocache_only ∅ in
  (∀ (req : Request) (opts : Opts),
     cachePrefix opts = None →
     cacheKey req (Some opts) = "undefined" +:+ requestPath req
     ∧ specCacheKey (Some opts) (requestPath req) = requestPath req)
  ∧ Site.nocache_only ≫= cachePrefix = None
  ∧ specCacheKey Site.nocache_only (requestPath req) = "/docs/"
  ∧ CacheRead "undefined/docs/" ∈ events o
  ∧ CacheWrite "undefined/docs/" ∈ events o
  ∧ (∀ key, CacheRead key ∈ events o ∨ CacheWrite key ∈ events o →
       key = "undefined/docs/")
  ∧ store o !! "/docs/" = None
  ∧ is_Some (store o !! "undefined/docs/")
  ∧ is_Some (store (clearCache (Some "/docs/") None (store o)) !! "undefined/docs/").
Proof.
  intros req o. split_and!.
  - intros req' opts Hprefix. unfold cacheKey, specCacheKey, prefixed. cbn.
    by rewrite Hprefix.
  - done.
  - done.
  - vm_compute. left.
  - vm_compute. do 5 right. left.
  - intros key Hin. set (es := events o) in Hin.
    vm_compute in es. subst es.
    rewrite !elem_of_cons, !elem_of_nil in Hin.
    destruct_or?; by simplify_eq.
  - by vm_compute.
  - vm_compute. by eexists.
  - vm_compute. by eexists.
Qed.

(** GET [/a.txt?v=1] with the prefix [site:]. *)
Lemma cache_key_with_prefix_witness :
  let req := Site.get "/a.txt?v=1" [] in
  let o := handler Site.www_cached Site.env req Site.mounted ∅ in
  specCacheKey Site.mounted (requestPath req) = "site:/a.txt"
  ∧ requestPath req = "/a.txt"
  ∧ CacheRead "site:/a.txt" ∈ events o
  ∧ CacheWrite "site:/a.txt" ∈ events o
  ∧ (∀ k, CacheRead k ∈ events o ∨ CacheWrite k ∈ events o → k = "site:/a.txt").
Proof.
  intros req o.
  split_and!; [done | done | vm_compute; left | vm_compute; do 5 right; left |].
  assert (Site.mounted = None
          ∨ (∃ opts prefix, Site.mounted = Some opts ∧ cachePrefix opts = Some prefix))
    as Hopts by (right; by eexists _, _).
  apply (cache_key_with_prefix Site.www_cached Site.env req Site.mounted ∅ Hopts).
Defined.



(** C7 as stated fails in both halves.  With caching on, no conditional
    header and an entry under the cache key, a POST is declined and a GET
    for a path that contains [..] is answered 403; and a GET whose
    [if-none-match] is present but empty is still answered from [_cache],
    without a stat. *)
Lemma C7_counterexample :
  let c : gmap string CacheEntry :=
    <["/a.txt" := Site.stale]> {["/a..b.txt" := Site.stale]} in
  let empty_tag := Site.get "/a.txt" [("if-none-match", EmptyString)] in
  truthy (cache Site.www_cached) = true
  ∧ c !! cacheKey (Site.post "/a.txt") None = Some Site.stale
  ∧ handler Site.www_cached Site.env (Site.post "/a.txt") None c
    = {| store := c; events := []; result := Return false |}
  ∧ c !! cacheKey (Site.get "/a..b.txt" []) None = Some Site.stale
  ∧ handler Site.www_cached Site.env (Site.get "/a..b.txt" []) None c
    = {| store := c; events := forbiddenResponse; result := Return true |}
  ∧ default ∅ (headers empty_tag) !! "if-none-match" = Some EmptyString
  ∧ handler Site.www_cached Site.env empty_tag None c
    = {| store := c; events := hitResponse empty_tag "/a.txt" Site.stale;
         result := Return true |}.
Proof. split_and!; by vm_compute. Qed.

(** With an entry for [/a.txt] in [_cache]: a plain GET is answered from it,
    a GET with a non-empty [if-none-match] goes to the filesystem. *)
Lemma C7_witness :
  let c : gmap string CacheEntry := {["/a.txt" := Site.stale]} in
  let plain := Site.get "/a.txt" [] in
  let conditional := Site.get "/a.txt" [("if-none-match", "stale")] in
  handler Site.www_cached Site.env plain None c
    = {| store := c; events := hitResponse plain "/a.txt" Site.stale;
         result := Return true |}
  ∧ (∀ key, CacheRead key ∉ events (handler Site.www_cached Site.env conditional None c))
  ∧ ∃ more, events (handler Site.www_cached Site.env conditional None c)
            = FsStat "/www/a.txt" :: more.
Proof.
  intros c plain conditional.
  assert (∀ req, url req = "/a.txt" → ¬ contains (decodedPath req) "..") as Hpath.
  { intros req Hurl Hsub. apply tilde_indexOf_spec in Hsub.
    unfold decodedPath, requestPath in Hsub. rewrite Hurl in Hsub.
    by vm_compute in Hsub. }
  split.
  - destruct (C7_cache_hit_and_bypass Site.www_cached Site.env plain None c)
      as [Hhit _]; [by left | by apply Hpath | done |].
    apply (Hhit ltac:(by intros (v & [=] & _)) ltac:(by intros (v & [=] & _))
             Site.stale eq_refl).
  - destruct (C7_cache_hit_and_bypass Site.www_cached Site.env conditional None c)
      as [_ Hbypass]; [by left | by apply Hpath | done |].
    destruct Hbypass as (Hread & Hstat & _).
    + right. by exists "stale".
    + split; [exact Hread | exact (Hstat "/www" [] eq_refl)].
Defined.


(** C9 as stated fails when the options object has no [cachePrefix]: the
    entry at the key itself stays; and an empty key empties the whole
    store. *)
Lemma C9_counterexample :
  let c : gmap string CacheEntry := {["/a.txt" := Site.stale]} in
  specCacheKey Site.nocache_only "/a.txt" = "/a.txt"
  ∧ store (clearCache (Some "/a.txt") Site.nocache_only c) !! "/a.txt"
    = Some Site.stale
  ∧ store (clearCache (Some EmptyString) Site.mounted c) = ∅.
Proof. split_and!; by vm_compute. Qed.

(** Clearing [/a.txt] under the prefix [site:] leaves [site:/b.txt]; a GET
    for [/a.txt] under that prefix is then answered from the file. *)
Lemma C9_witness :
  let c : gmap string CacheEntry :=
    <["site:/a.txt" := Site.stale]> {["site:/b.txt" := Site.stale]} in
  let cleared := store (clearCache (Some "/a.txt") Site.mounted c) in
  let o := handler Site.www_cached Site.env (Site.get "/a.txt" []) Site.mounted cleared in
  cleared = {["site:/b.txt" := Site.stale]}
  ∧ cleared !! "site:/a.txt" = None
  ∧ cleared !! "site:/b.txt" = Some Site.stale
  ∧ ResEnd (Some (Bytes Site.hi)) ∈ events o
  ∧ store (clearCache None Site.mounted c) = ∅.
Proof.
  intros c cleared o.
  assert (Site.mounted = None
          ∨ (∃ opts prefix, Site.mounted = Some opts ∧ cachePrefix opts = Some prefix))
    as Hopts by (right; by eexists _, _).
  destruct (C9_clearCache "/a.txt" Site.mounted c) as [Hkey Hall].
  destruct (Hkey ltac:(done) Hopts) as (Hdel & Hgone & Hframe & _).
  split_and!; [by vm_compute | exact Hgone | | | exact Hall].
  - transitivity (c !! "site:/b.txt"); [by apply Hframe | by vm_compute].
  - vm_compute. do 4 right. left.
Defined.

End Examples.

(** * Further properties of the module *)

(** ** [endsWith] and [etag] *)

Lemma length_append (a b : string) :
  String.length (a +:+ b) = (String.length a + String.length b)%nat.
Proof.
  induction a as [|x a IH]; [done |].
  change (S (String.length (a +:+ b)) = S (String.length a + String.length b)).
  by rewrite IH.
Qed.

Lemma drop_append (a b : string) : Js.drop (String.length a) (a +:+ b) = b.
Proof. induction a as [|x a IH]; [by destruct b | exact IH]. Qed.

Lemma drop_suffix (n : nat) (s : string) : ∃ before, s = before +:+ Js.drop n s.
Proof.
  revert s. induction n as [|n IH]; intros s.
  - by exists EmptyString.
  - destruct s as [|x s]; [by exists EmptyString |].
    destruct (IH s) as [before Hs]. exists (String x before).
    change (String x s = String x (before +:+ Js.drop n s)). by rewrite <- Hs.
Qed.

(** [endsWith(str, pattern)] is true exactly when [pattern] is a suffix of
    [str]; in particular it is false when [pattern] is the longer one. *)
Theorem endsWith_suffix (str pattern : string) :
  (endsWith str pattern = true ↔ ∃ before, str = before +:+ pattern)
  ∧ ((String.length str < String.length pattern)%nat → endsWith str pattern = false).
Proof.
  unfold endsWith, Js.substring, Js.length.
  assert (bool_decide
            (Js.drop (Z.to_nat (Z.of_nat (String.length str)
                                - Z.of_nat (String.length pattern))) str = pattern)
          = true ↔ ∃ before, str = before +:+ pattern) as Hiff.
  { rewrite bool_decide_eq_true. split.
    - intros Hdrop. destruct (drop_suffix
        (Z.to_nat (Z.of_nat (String.length str) - Z.of_nat (String.length pattern)))
        str) as [before Hs].
      exists before. by rewrite Hdrop in Hs.
    - intros [before ->]. rewrite length_append.
      replace (Z.to_nat _) with (String.length before) by lia.
      apply drop_append. }
  split; [exact Hiff |].
  intros Hlt. apply not_true_is_false. rewrite Hiff. intros [before ->].
  rewrite length_append in Hlt. lia.
Qed.

Lemma pretty_N_go_digits (x : N) (s : string) :
  onlyDigits s = true → onlyDigits (pretty_N_go x s) = true.
Proof.
  revert s. induction (N.lt_wf_0 x) as [x _ IH]; intros s Hs.
  assert (x = 0 ∨ 0 < x)%N as [->|Hpos] by lia; [done |].
  rewrite pretty_N_go_step by done. apply IH; [by apply N.div_lt |].
  cbn [onlyDigits]. rewrite Hs, andb_true_r.
  unfold pretty_N_char. by repeat case_match.
Qed.

Lemma pretty_digits (n : Z) : 0 ≤ n → onlyDigits (pretty n) = true.
Proof.
  destruct n as [|p|p]; [done | | lia]. intros _.
  unfold pretty, pretty_Z, pretty, pretty_positive, pretty, pretty_N.
  rewrite decide_False by done. by apply pretty_N_go_digits.
Qed.

Lemma digits_dash_split (a b r r' : string) :
  onlyDigits a = true → onlyDigits b = true →
  a +:+ "-" +:+ r = b +:+ "-" +:+ r' → a = b ∧ r = r'.
Proof.
  revert b. induction a as [|x a IH]; intros [|y b] Ha Hb Heq.
  - by inversion Heq.
  - inversion Heq; subst. cbn in Hb. done.
  - inversion Heq; subst. cbn in Ha. done.
  - inversion Heq as [[Hxy Heq']]; subst. cbn in Ha, Hb.
    apply andb_true_iff in Ha as [_ Ha]. apply andb_true_iff in Hb as [_ Hb].
    destruct (IH b Ha Hb Heq') as [-> ->]. done.
Qed.

(** The etag tells files apart: two stats with non-negative sizes have
    the same etag only if they have the same size and the same modification
    time. *)
Theorem etag_injective (st st' : Stat) :
  0 ≤ size st → 0 ≤ size st' →
  etag st = etag st' → size st = size st' ∧ mtime st = mtime st'.
Proof.
  intros Hs Hs' Heq. unfold etag in Heq.
  apply digits_dash_split in Heq as [Hsize Hmtime]; [| by apply pretty_digits..].
  split; by apply (inj pretty).
Qed.

Section Further.
Context {host : Host}.

(** ** [modified] and [notModified] on their own *)

(** A request without a non-empty [if-modified-since] or [if-none-match]
    always counts as modified, whatever the response headers. *)
Theorem modified_unconditional (rh : gmap string string) (h : Headers) :
  conditionalGET rh = false → modified rh h = true.
Proof.
  unfold conditionalGET, modified. intros [Hims Hinm]%orb_false_iff.
  by rewrite Hims, Hinm.
Qed.

(** Given a header object that does have an [ETag] field, [modified]
    answers false when [if-none-match] is that same non-empty string. *)
Theorem modified_etag_match (rh : gmap string string) (h : Headers) (tag : string) :
  tag ≠ EmptyString →
  rh !! "if-none-match" = Some tag →
  h !! "ETag" = Some (HStr tag) →
  modified rh h = false.
Proof.
  intros Htag Hnm Het. unfold modified. rewrite Hnm, Het. cbn.
  by rewrite (bool_decide_false _ Htag), bool_decide_true.
Qed.

(** Given a header object that does have a [Last-Modified] field and a
    request without [if-none-match]: an [if-modified-since] that is not a
    date is ignored, and one that is a date makes the answer false exactly
    when the last modification is not later than it. *)
Theorem modified_since (rh : gmap string string) (h : Headers) (since last : string) :
  since ≠ EmptyString → last ≠ EmptyString →
  rh !! "if-none-match" = None →
  rh !! "if-modified-since" = Some since →
  h !! "Last-Modified" = Some (HStr last) →
  (date_parse since = None → modified rh h = true)
  ∧ (∀ t, date_parse since = Some t →
       (date_parse last = None → modified rh h = true)
       ∧ (∀ l, date_parse last = Some l →
            modified rh h = negb (l <=? t))).
Proof.
  intros Hsince Hlast Hnm Hims Hlm. unfold modified.
  rewrite Hnm, Hims, Hlm. cbn.
  rewrite (bool_decide_false _ Hsince), (bool_decide_false _ Hlast). cbn.
  split.
  - by intros ->.
  - intros t ->. split.
    + by intros ->.
    + intros l ->. by destruct (l <=? t).
Qed.

(** [notModified] writes a 304 head and an empty end and leaves [_cache]
    alone; the head has lost every field whose name starts with [Content]
    and kept every other field with its value. *)
Theorem notModified_strips (h : Headers) (c : gmap string CacheEntry) :
  ∃ sent,
    notModified h c
      = {| store := c; events := [WriteHead 304 sent; ResEnd None];
           result := Return () |}
    ∧ ∀ field,
        ((∃ rest, field = "Content" +:+ rest) → sent !! field = None)
        ∧ (¬ (∃ rest, field = "Content" +:+ rest) → sent !! field = h !! field).
Proof.
  eexists. split; [reflexivity |].
  intros field. rewrite <- indexOf_zero_spec. split; intros Hfield.
  - apply map_lookup_filter_None. right. intros value _. cbn. by intros [].
  - destruct (h !! field) as [value|] eqn:Hvalue.
    + by apply map_lookup_filter_Some.
    + apply map_lookup_filter_None. by left.
Qed.

End Further.

(** ** The constructor *)

(** Where the roots come from: [options.roots] when given (even empty);
    otherwise a single root, the first non-empty of
    [process.connectEnv.staticRoot], [options.root] and the working
    directory, so that the environment's root overrides the option. *)
Theorem staticProvider_roots (process : Process) (options : Options) :
  let cfg := staticProvider process (ArgObject options) in
  (∀ rs, opt_roots options = Some rs → roots cfg = rs)
  ∧ (opt_roots options = None →
     (∀ env_root, staticRoot process = Some env_root → env_root ≠ EmptyString →
        roots cfg = [env_root])
     ∧ (Js.truthy (staticRoot process) = false →
        (∀ root, opt_root options = Some root → root ≠ EmptyString →
           roots cfg = [root])
        ∧ (Js.truthy (opt_root options) = false → roots cfg = [cwd process]))).
Proof.
  cbn. split.
  - by intros rs ->.
  - intros ->. split.
    + intros env_root -> Hne. unfold str_or. cbn.
      rewrite (bool_decide_false _ Hne). cbn.
      by rewrite (bool_decide_false _ Hne).
    + intros Henv. unfold str_or. rewrite Henv. split.
      * intros root -> Hne. cbn. by rewrite (bool_decide_false _ Hne).
      * by intros ->.
Qed.

(** How [maxAge] is settled and when caching is on.  A root string gives
    one year and no caching.  With an options object caching is on exactly
    when [options.cache] is truthy; a truthy [options.maxAge] is kept; without
    one a truthy [options.cache] becomes the [maxAge] (so [cache: true] gives
    [true / 1000] seconds), and without either it is one year. *)
Theorem staticProvider_maxAge_cache {host : Host} (process : Process)
    (root : string) (options : Options) :
  let from_string := staticProvider process (ArgString root) in
  let cfg := staticProvider process (ArgObject options) in
  (maxAge from_string = JNum MAX_AGE ∧ truthy (cache from_string) = false
   ∧ roots from_string = [root])
  ∧ cache cfg = opt_cache options
  ∧ (truthy (opt_maxAge options) = true → maxAge cfg = opt_maxAge options)
  ∧ (truthy (opt_maxAge options) = false →
     (truthy (opt_cache options) = true → maxAge cfg = opt_cache options)
     ∧ (opt_cache options = JBool true →
        maxAge_seconds (maxAge cfg) = div1000_toString 1)
     ∧ (truthy (opt_cache options) = false → maxAge cfg = JNum MAX_AGE)).
Proof.
  cbn. unfold js_or. split_and!; try done.
  - intros Hm. rewrite Hm, andb_false_r. by rewrite Hm.
  - intros Hm. rewrite Hm, andb_true_r. split_and!.
    + intros Hc. by rewrite Hc, Hc.
    + by intros ->.
    + intros Hc. by rewrite Hc, Hm.
Qed.

(** ** The handler and [_cache] *)

(** Membership of an event in the effects of a run. *)
Ltac in_run H :=
  cbn [events app] in H;
  unfold forbiddenResponse, hitResponse, fileResponse in H;
  try match type of H with
      | context [if truthy ?v then _ else _] => destruct (truthy v) eqn:?
      end;
  repeat first [rewrite elem_of_app in H | rewrite elem_of_cons in H
               | rewrite elem_of_nil in H];
  destruct_or?;
  try discriminate H; try contradiction;
  try (eapply elem_of_lookup in H; [| eassumption]; try discriminate H);
  try (apply elem_of_statsOf in H as [? H]; try discriminate H).

Section HandlerAndCache.
Context {host : Host}.

Lemma reachesRoots_uncached cfg req opts c lookup :
  truthy (cache cfg) = false → reachesRoots cfg req opts c lookup → lookup = [].
Proof.
  unfold reachesRoots, cacheConsulted. intros ->. cbn.
  by intros (_ & _ & [(? & _)|(_ & ->)]).
Qed.

(** With caching off (always so for a handler made from a root string) the
    handler neither reads nor writes [_cache]. *)
Theorem handler_caching_off cfg env req opts c :
  truthy (cache cfg) = false →
  let o := handler cfg env req opts c in
  store o = c ∧ ∀ e, e ∈ events o → isCacheAccess e = false.
Proof.
  intros Hoff o. subst o.
  destruct (handler_run cfg env req opts c);
    try match goal with
        | H : reachesRoots _ _ _ _ _ |- _ =>
            apply (reachesRoots_uncached _ _ _ _ _ Hoff) in H as ->
        end;
    cbn [store events app]; unfold fileStore; rewrite ?Hoff.
  all: try match goal with
           | H : cacheConsulted _ _ = true |- _ =>
               unfold cacheConsulted in H; by rewrite Hoff in H
           end.
  all: split; [done |]; intros e Hin; in_run Hin; try congruence; by subst.
Qed.

(** The handler changes [_cache] at no key but its own cache key, and never
    removes an entry. *)
Theorem handler_cache_frame cfg env req opts c :
  let o := handler cfg env req opts c in
  (∀ key, key ≠ cacheKey req opts → store o !! key = c !! key)
  ∧ (∀ key, is_Some (c !! key) → is_Some (store o !! key)).
Proof.
  intros o. subst o.
  destruct (handler_run cfg env req opts c); cbn [store]; try done.
  unfold fileStore. destruct (truthy (cache cfg)); [| done]. split.
  - intros key Hne. by rewrite lookup_insert_ne.
  - intros key Hsome. destruct (decide (cacheKey req opts = key)) as [<-|Hne].
    + rewrite lookup_insert_eq. by eexists.
    + by rewrite lookup_insert_ne.
Qed.

(** [_cache] changes only in a call that returns true after reading a file
    with caching on; the write is the last effect and comes after the 200
    head.  A call that declines or throws leaves [_cache] as it was. *)
Theorem handler_cache_write cfg env req opts c :
  let o := handler cfg env req opts c in
  (result o ≠ Return true → store o = c)
  ∧ (store o ≠ c →
     truthy (cache cfg) = true
     ∧ ∃ before filename h,
         events o = before ++ [CacheWrite (cacheKey req opts)]
         ∧ FsReadFile filename ∈ before ∧ WriteHead 200 h ∈ before).
Proof.
  intros o. subst o.
  destruct (handler_run cfg env req opts c); cbn [store events result];
    try (split; [done | intros Hne; by destruct Hne]).
  unfold fileStore, fileResponse. split; [done |].
  destruct (truthy (cache cfg)); [| intros Hne; by destruct Hne].
  intros _. split; [done |].
  eexists (lookup ++ statsOf (decodedPath req) (before ++ [root]) ++ [_; _; _]), _, _.
  split_and!.
  - by rewrite <- !app_assoc.
  - rewrite !elem_of_app. right. right. by left.
  - rewrite !elem_of_app. right. right. right. by left.
Qed.

(** What a call that answers 200 from a file has done. *)
Lemma served_inv cfg env req opts c h filename :
  let o := handler cfg env req opts c in
  WriteHead 200 h ∈ events o → FsReadFile filename ∈ events o →
  ∃ lookup before root after st raw data,
    reachesRoots cfg req opts c lookup
    ∧ roots cfg = before ++ root :: after
    ∧ missingUnder env (decodedPath req) before
    ∧ filename = candidate root (decodedPath req)
    ∧ fs_stat env filename = Return st ∧ isDirectory st = false
    ∧ fs_readFile env filename = Return raw
    ∧ transformed opts raw = Return data
    ∧ h = responseHeaders cfg env opts filename st data
    ∧ o = {| store := fileStore cfg env req opts filename st data c;
             events := lookup ++ statsOf (decodedPath req) (before ++ [root])
                       ++ fileResponse cfg env req opts filename st data;
             result := Return true |}.
Proof.
  intros o. subst o.
  destruct (handler_run cfg env req opts c); intros Hhead Hread;
    in_run Hhead; in_run Hread.
  all: injection Hhead as ->; injection Hread as ->.
  all: by eexists lookup, before, root, after, st, raw, data.
Qed.

(** Write-back and lookup: once a call has answered 200 from a file with
    caching on, [_cache] holds the head and the bytes of that answer under
    the cache key, and a later GET or HEAD with that cache key, no [..] in
    its path and no conditional header is answered with exactly them, by any
    handler with caching on and whatever the filesystem has become. *)
Theorem cache_write_then_hit cfg env req opts c h filename :
  truthy (cache cfg) = true →
  let o := handler cfg env req opts c in
  WriteHead 200 h ∈ events o → FsReadFile filename ∈ events o →
  ∃ data,
    ResEnd (sentBody req data) ∈ events o
    ∧ store o !! cacheKey req opts
      = Some {| entry_headers := h; entry_body := data |}
    ∧ ∀ cfg' env' req' opts',
        truthy (cache cfg') = true →
        method req' = "GET" ∨ method req' = "HEAD" →
        ¬ contains (decodedPath req') ".." →
        ¬ carries req' "if-modified-since" → ¬ carries req' "if-none-match" →
        cacheKey req' opts' = cacheKey req opts →
        handler cfg' env' req' opts' (store o)
        = {| store := store o;
             events := [CacheRead (cacheKey req opts); WriteHead 200 h;
                        ResEnd (sentBody req' data)];
             result := Return true |}.
Proof.
  intros Hon o Hhead Hread.
  destruct (served_inv cfg env req opts c h filename Hhead Hread)
    as (lookup & before & root & after & st & raw & data & _ & _ & _ & _ & _ & _
        & _ & _ & -> & Ho).
  subst o. rewrite Ho. cbn [store events]. unfold fileStore. rewrite Hon.
  exists data. split_and!.
  - unfold fileResponse. rewrite !elem_of_app. right. right. left.
    do 2 right. by left.
  - by rewrite lookup_insert_eq.
  - intros cfg' env' req' opts' Hon' Hmethod%accepted_spec Hpath Hims Hinm Hkey.
    rewrite handler_unfold, Hmethod. cbn [negb].
    assert (traversal req' = false) as ->.
    { destruct (traversal req') eqn:Ht; [| done].
      by apply tilde_indexOf_spec in Ht. }
    assert (cacheConsulted cfg' req' = true) as ->.
    { unfold cacheConsulted. rewrite Hon'. cbn. apply negb_true_iff.
      destruct (conditionalGET _) eqn:Hc; [| done].
      apply conditionalGET_spec in Hc as [?|?]; contradiction. }
    cbv zeta. by rewrite Hkey, lookup_insert_eq.
Qed.

(** A conditional request refreshes the entry: with caching on, a GET or
    HEAD that carries a conditional header and returns true has replaced the
    entry under its cache key by the head and the bytes it has just built
    from the file. *)
Theorem conditional_request_refreshes cfg env req opts c :
  truthy (cache cfg) = true →
  method req = "GET" ∨ method req = "HEAD" →
  ¬ contains (decodedPath req) ".." →
  carries req "if-modified-since" ∨ carries req "if-none-match" →
  let o := handler cfg env req opts c in
  result o = Return true →
  ∃ filename st raw data,
    fs_stat env filename = Return st
    ∧ fs_readFile env filename = Return raw
    ∧ transformed opts raw = Return data
    ∧ WriteHead 200 (responseHeaders cfg env opts filename st data) ∈ events o
    ∧ store o
      = <[cacheKey req opts :=
            {| entry_headers := responseHeaders cfg env opts filename st data;
               entry_body := data |}]> c.
Proof.
  intros Hon Hmethod%accepted_spec Hpath Hcond%conditionalGET_spec o. subst o.
  assert (cacheConsulted cfg req = false) as Hcons.
  { unfold cacheConsulted. by rewrite Hcond, andb_false_r. }
  assert (traversal req = false) as Htrav.
  { destruct (traversal req) eqn:Ht; [| done].
    by apply tilde_indexOf_spec in Ht. }
  destruct (handler_run cfg env req opts c); cbn [result store events];
    intros [=]; try congruence.
  eexists _, st, raw, data. unfold fileStore, fileResponse. rewrite Hon.
  split_and!; try done.
  rewrite !elem_of_app. right. right. left. right. by left.
Qed.

(** [clearCache] undoes the write-back for every options object: clearing
    the request path with the options of the request leaves [_cache] as it
    was before the request, less the entry of its cache key. *)
Theorem clearCache_after_handler cfg env req opts c :
  requestPath req ≠ EmptyString →
  store (clearCache (Some (requestPath req)) opts
           (store (handler cfg env req opts c)))
  = delete (cacheKey req opts) c.
Proof.
  intros Hpath. unfold clearCache. cbn. rewrite (bool_decide_false _ Hpath). cbn.
  change (prefixed opts (requestPath req)) with (cacheKey req opts).
  destruct (handler_run cfg env req opts c); cbn [store]; try done.
  unfold fileStore. destruct (truthy (cache cfg)); [| done].
  apply delete_insert_eq.
Qed.

End HandlerAndCache.

(** ** The handler and the response *)

Section HandlerAndResponse.
Context {host : Host}.

(** A HEAD whose path has no [..] is never sent a body, from the cache or
    from a file; yet with caching on the entry it writes holds the whole
    body, so that a later GET is served it. *)
Theorem head_sends_no_body cfg env req opts c :
  method req = "HEAD" →
  ¬ contains (decodedPath req) ".." →
  let o := handler cfg env req opts c in
  (∀ body, ResEnd body ∈ events o → body = None)
  ∧ (∀ h filename,
       truthy (cache cfg) = true →
       WriteHead 200 h ∈ events o → FsReadFile filename ∈ events o →
       ∃ raw data,
         fs_readFile env filename = Return raw
         ∧ transformed opts raw = Return data
         ∧ store o !! cacheKey req opts
           = Some {| entry_headers := h; entry_body := data |}).
Proof.
  intros Hhead Hpath o. subst o. split.
  - assert (traversal req = false) as Htrav.
    { destruct (traversal req) eqn:Ht; [| done].
      by apply tilde_indexOf_spec in Ht. }
    intros body Hin.
    destruct (handler_run cfg env req opts c); try congruence; in_run Hin;
      injection Hin as ->; unfold sentBody; by rewrite bool_decide_true.
  - intros h filename Hon Hwrite Hread.
    destruct (served_inv cfg env req opts c h filename Hwrite Hread)
      as (lookup & before & root & after & st & raw & data & _ & _ & _ & _ & _ & _
          & Hraw & Hdata & -> & Ho).
    exists raw, data. rewrite Ho. cbn [store]. unfold fileStore. rewrite Hon.
    by rewrite lookup_insert_eq.
Qed.

(** In a 200 built from a file the body given to a GET is the file's bytes
    after the transform, and [content-length] is the length of that body,
    not of the file. *)
Theorem content_length_of_body cfg env req opts c h filename :
  let o := handler cfg env req opts c in
  WriteHead 200 h ∈ events o → FsReadFile filename ∈ events o →
  ∃ raw data,
    fs_readFile env filename = Return raw
    ∧ transformed opts raw = Return data
    ∧ h !! "content-length" = Some (HNum (Z.of_nat (length data)))
    ∧ ResEnd (sentBody req data) ∈ events o
    ∧ (method req = "GET" → ResEnd (Some (Bytes data)) ∈ events o).
Proof.
  intros o Hwrite Hread.
  destruct (served_inv cfg env req opts c h filename Hwrite Hread)
    as (lookup & before & root & after & st & raw & data & _ & _ & _ & _ & _ & _
        & Hraw & Hdata & -> & Ho).
  exists raw, data.
  assert (ResEnd (sentBody req data) ∈ events o) as Hend.
  { subst o. rewrite Ho. cbn [events]. unfold fileResponse.
    rewrite !elem_of_app. right. right. left. do 2 right. by left. }
  split_and!; [done | done | by rewrite responseHeaders_lookup | done |].
  intros Hget. unfold sentBody in Hend.
  rewrite bool_decide_false in Hend; [done | by rewrite Hget].
Qed.

(** The other fields of a 200 built from a file: [content-type] is the type
    of the file name, or what the content gives when that is the generic
    binary type; [last-modified] is the file's modification time and
    [expires] the present time; and there is no field beyond these, [etag],
    [cache-control], [content-length] and [content-disposition]. *)
Theorem remaining_headers cfg env req opts c h filename :
  let o := handler cfg env req opts c in
  WriteHead 200 h ∈ events o → FsReadFile filename ∈ events o →
  ∃ st raw data,
    fs_stat env filename = Return st
    ∧ fs_readFile env filename = Return raw
    ∧ transformed opts raw = Return data
    ∧ h !! "content-type"
      = Some (HStr (if bool_decide (mime_type filename = "application/octet-stream")
                    then mime_fromContent data (mime_type filename)
                    else mime_type filename))
    ∧ h !! "last-modified" = Some (HStr (toUTCString (mtime st)))
    ∧ h !! "expires" = Some (HStr (toUTCString (now env)))
    ∧ ∀ field, is_Some (h !! field) →
        field ∈ ["content-type"; "content-length"; "last-modified";
                 "cache-control"; "etag"; "expires"; "content-disposition"].
Proof.
  intros o Hwrite Hread.
  destruct (served_inv cfg env req opts c h filename Hwrite Hread)
    as (lookup & before & root & after & st & raw & data & _ & _ & _ & _ & Hst & _
        & Hraw & Hdata & -> & _).
  exists st, raw, data.
  split_and!; try done; try by rewrite responseHeaders_lookup.
  intros field. rewrite responseHeaders_lookup.
  repeat case_decide; subst; rewrite ?elem_of_cons; try tauto.
  by intros [? ?].
Qed.

Lemma append_nil_r (s : string) : s +:+ EmptyString = s.
Proof.
  induction s as [|ch s IH]; [done |].
  change (String ch (s +:+ EmptyString) = String ch s). by rewrite IH.
Qed.

(** A URL without a question mark is its own request path, and stays the
    request path when a query is appended. *)
Lemma requestPath_query (path query : string) :
  ¬ contains path "?" →
  Js.first (Js.split "?" path) = path
  ∧ Js.first (Js.split "?" (path +:+ String "?" query)) = path.
Proof.
  intros Hno. split.
  - destruct (split_first_spec "?" path) as (rest & Hs & [->|[tail ->]] & _).
    + by rewrite append_nil_r in Hs.
    + destruct Hno. by exists (Js.first (Js.split "?" path)), tail.
  - induction path as [|ch path IH]; [done |].
    change (String ch path +:+ String "?" query)
      with (String ch (path +:+ String "?" query)).
    cbn [Js.split]. destruct (decide (ch = "?"%char)) as [->|Hne].
    + destruct Hno. by exists EmptyString, path.
    + destruct (Js.split "?" (path +:+ String "?" query)) as [|first rest] eqn:Hs;
        [by destruct (split_cons "?" (path +:+ String "?" query)) |].
      cbn in *. rewrite IH; [done |].
      intros (before & after & ->). apply Hno. by exists (String ch before), after.
Qed.

(** The query string plays no part: a request and the same request with a
    query appended to its URL get the same treatment in every respect, the
    same effects, the same [_cache] afterwards and the same completion. *)
Theorem query_string_ignored cfg env req req' opts c (query : string) :
  method req' = method req → headers req' = headers req →
  ¬ contains (url req) "?" →
  url req' = url req +:+ String "?" query →
  handler cfg env req' opts c = handler cfg env req opts c.
Proof.
  intros Hmethod Hheaders Hno Hurl.
  destruct (requestPath_query (url req) query Hno) as [Hplain Hquery].
  unfold handler. by rewrite Hmethod, Hheaders, Hurl, Hquery, Hplain.
Qed.

(** The filesystem is touched only at the candidates of the configured
    roots for the decoded path: every stat and every read of a call is at
    [Path.join(root, path)] (with [index.html] after a separator) for one
    of the roots. *)
Theorem fs_access_confined cfg env req opts c :
  ∀ e, e ∈ events (handler cfg env req opts c) → isFsAccess e = true →
  ∃ root, root ∈ roots cfg
          ∧ (e = FsStat (candidate root (decodedPath req))
             ∨ e = FsReadFile (candidate root (decodedPath req))).
Proof.
  assert (∀ (e : Event) rs, e ∈ statsOf (decodedPath req) rs → rs ⊆ roots cfg →
            ∃ root, root ∈ roots cfg
                    ∧ (e = FsStat (candidate root (decodedPath req))
                       ∨ e = FsReadFile (candidate root (decodedPath req))))
    as Hstats.
  { intros e rs. unfold statsOf. rewrite list_elem_of_fmap.
    intros (root & -> & Hin) Hsub. exists root. split; [by apply Hsub | by left]. }
  assert (∀ before root after, roots cfg = (before ++ root :: after)%list →
            (before ++ [root])%list ⊆ roots cfg ∧ root ∈ roots cfg) as Hsplit.
  { intros before root after ->. split.
    - intros x. rewrite !elem_of_app, !elem_of_cons, elem_of_nil. tauto.
    - rewrite elem_of_app, elem_of_cons. tauto. }
  intros e Hin Hfs.
  destruct (handler_run cfg env req opts c);
    try match goal with
        | H : roots _ = _ |- _ => apply Hsplit in H as [Hsub Hroot]
        end;
    cbn [events] in Hin; unfold forbiddenResponse, hitResponse, fileResponse in Hin;
    repeat first [rewrite elem_of_app in Hin | rewrite elem_of_cons in Hin
                 | rewrite elem_of_nil in Hin];
    destruct_or?; try contradiction;
    try (by eapply Hstats; [eassumption |]);
    try (eapply elem_of_lookup in Hin; [| eassumption]);
    subst; try discriminate Hfs;
    try (by eexists; split; [eassumption | right]).
  all: destruct (truthy (cache cfg));
    [apply list_elem_of_singleton in Hin | apply not_elem_of_nil in Hin; contradiction];
    subst; discriminate Hfs.
Qed.

(** A directory hides what later roots have: when the first root that has
    the path has a directory there, the handler declines after that stat and
    tries no later root. *)
Theorem directory_hides_later_roots cfg env req opts c lookup before root after st :
  reachesRoots cfg req opts c lookup →
  roots cfg = before ++ root :: after →
  missingUnder env (decodedPath req) before →
  fs_stat env (candidate root (decodedPath req)) = Return st →
  isDirectory st = true →
  handler cfg env req opts c
  = {| store := c;
       events := lookup ++ statsOf (decodedPath req) (before ++ [root]);
       result := Return false |}.
Proof.
  intros (Hacc & Htrav & Hlook) Hroots Hmiss Hst Hdir.
  rewrite handler_unfold, Hacc, Htrav, serve_unfold. cbn [negb]. cbv zeta.
  rewrite Hroots, (statLoop_found _ _ _ _ _ st) by done. cbn. rewrite Hdir.
  by destruct Hlook as [(-> & -> & ->)|(-> & ->)].
Qed.

(** Errors after the stat are thrown, whatever their code: when the file
    cannot be read (even with "not found", which the loop would have passed
    over) or the transform throws, the handler throws that error, has
    written nothing to the response and leaves [_cache] as it was. *)
Theorem read_errors_are_thrown cfg env req opts c lookup before root after st err :
  reachesRoots cfg req opts c lookup →
  roots cfg = before ++ root :: after →
  missingUnder env (decodedPath req) before →
  fs_stat env (candidate root (decodedPath req)) = Return st →
  isDirectory st = false →
  fs_readFile env (candidate root (decodedPath req)) = Throw err
  ∨ (∃ raw, fs_readFile env (candidate root (decodedPath req)) = Return raw
            ∧ transformed opts raw = Throw err) →
  let o := handler cfg env req opts c in
  result o = Throw err ∧ store o = c
  ∧ ∀ e, e ∈ events o → isResponse e = false.
Proof.
  intros (Hacc & Htrav & Hlook) Hroots Hmiss Hst Hdir Herr o. subst o.
  rewrite handler_unfold, Hacc, Htrav, serve_unfold. cbn [negb]. cbv zeta.
  rewrite Hroots, (statLoop_found _ _ _ _ _ st) by done. cbn. rewrite Hdir.
  assert (∀ e : Event,
            e ∈ lookup ++ statsOf (decodedPath req) (before ++ [root])
                ++ [FsReadFile (candidate root (decodedPath req))] →
            isResponse e = false) as Hquiet.
  { intros e. rewrite !elem_of_app, list_elem_of_singleton.
    intros [Hin|[Hin| ->]]; [| apply elem_of_statsOf in Hin as (? & ->); done | done].
    destruct Hlook as [(_ & _ & ->)|(_ & ->)].
    - by apply list_elem_of_singleton in Hin as ->.
    - by apply not_elem_of_nil in Hin. }
  destruct Herr as [->|(raw & -> & ->)];
    destruct Hlook as [(-> & -> & ->)|(-> & ->)]; cbn; split_and!; try done.
  all: intros e Hin; apply Hquiet; set_solver.
Qed.

(** With no root configured the handler never touches the filesystem, and
    returns true only for a 403 or an answer from [_cache]. *)
Theorem no_roots cfg env req opts c :
  roots cfg = [] →
  let o := handler cfg env req opts c in
  (∀ e, e ∈ events o → isFsAccess e = false)
  ∧ (result o = Return true →
     events o = forbiddenResponse
     ∨ ∃ hit, c !! cacheKey req opts = Some hit
              ∧ events o = hitResponse req (cacheKey req opts) hit).
Proof.
  intros Hroots o. subst o.
  destruct (handler_run cfg env req opts c); cbn [events result];
    try match goal with
        | H : roots _ = _ ++ _ :: _ |- _ =>
            rewrite Hroots in H; by destruct (app_cons_not_nil _ _ _ H)
        end.
  - split; [by intros e Hin%not_elem_of_nil | done].
  - split; [| by left]. intros e Hin. in_run Hin; by subst.
  - split; [| right; by exists hit]. intros e Hin. in_run Hin; by subst.
  - split; [| done]. rewrite Hroots. cbn. rewrite app_nil_r.
    intros e Hin. by rewrite (elem_of_lookup _ _ _ _ _ _ H Hin).
Qed.

End HandlerAndResponse.

(** ** The further properties on the example site *)

Section FurtherExamples.
Local Existing Instance Posix.host.

(** A file and a directory with the same size and time have the same etag. *)
Lemma etag_injective_witness :
  let file := {| size := 2; mtime := 1000; isDirectory := false |} in
  let dir := {| size := 2; mtime := 1000; isDirectory := true |} in
  etag file = etag dir ∧ size file = size dir ∧ mtime file = mtime dir.
Proof.
  intros file dir. split; [done |].
  by apply (etag_injective file dir).
Defined.

Lemma modified_unconditional_witness :
  modified ∅ {["ETag" := HStr "x"]} = true.
Proof. by apply modified_unconditional. Defined.

Lemma modified_etag_match_witness :
  modified {["if-none-match" := "x"]} {["ETag" := HStr "x"]} = false.
Proof. by apply (modified_etag_match _ _ "x"). Defined.

(** One second after the last modification: not modified; and a text that
    is no date is ignored. *)
Lemma modified_since_witness :
  let last := "Thu, 01 Jan 1970 00:00:01 GMT" in
  let h : Headers := {["Last-Modified" := HStr last]} in
  modified {["if-modified-since" := "Thu, 01 Jan 1970 00:00:02 GMT"]} h = false
  ∧ modified {["if-modified-since" := "yesterday"]} h = true.
Proof.
  intros last h. split.
  - destruct (modified_since {["if-modified-since" := "Thu, 01 Jan 1970 00:00:02 GMT"]}
                h "Thu, 01 Jan 1970 00:00:02 GMT" last
                ltac:(done) ltac:(done) ltac:(done) ltac:(done) ltac:(done))
      as [_ Hdate].
    destruct (Hdate 2000 eq_refl) as [_ Hlast]. exact (Hlast 1000 eq_refl).
  - destruct (modified_since {["if-modified-since" := "yesterday"]}
                h "yesterday" last
                ltac:(done) ltac:(done) ltac:(done) ltac:(done) ltac:(done))
      as [Hignored _].
    by apply Hignored.
Defined.

(** With caching off nothing is written, even with an entry in [_cache]. *)
Lemma handler_caching_off_witness :
  let c : gmap string CacheEntry := {["/a.txt" := Site.stale]} in
  let o := handler Site.www Site.env (Site.get "/a.txt" []) None c in
  store o = c ∧ ResEnd (Some (Bytes Site.hi)) ∈ events o
  ∧ ∀ e, e ∈ events o → isCacheAccess e = false.
Proof.
  intros c o.
  destruct (handler_caching_off Site.www Site.env (Site.get "/a.txt" []) None c)
    as [Hstore Hquiet]; [done |].
  split_and!; [exact Hstore | vm_compute; do 3 right; left | exact Hquiet].
Defined.

(** [/a.txt] is cached, then rewritten on disk; a HEAD for [/a.txt?v=2] is
    still answered with the head of the first answer. *)
Lemma cache_write_then_hit_witness :
  let first := handler Site.www_cached Site.env (Site.get "/a.txt" []) None ∅ in
  let h := responseHeaders Site.www_cached Site.env None "/www/a.txt"
             {| size := 2; mtime := 1000; isDirectory := false |} Site.hi in
  handler Site.www_cached rewritten (head_of "/a.txt?v=2") None (store first)
  = {| store := store first;
       events := [CacheRead "/a.txt"; WriteHead 200 h; ResEnd None];
       result := Return true |}
  ∧ handler Site.www_cached rewritten (Site.get "/a.txt" []) None (store first)
    = {| store := store first;
         events := [CacheRead "/a.txt"; WriteHead 200 h; ResEnd (Some (Bytes Site.hi))];
         result := Return true |}.
Proof.
  intros first h.
  assert (WriteHead 200 h ∈ events first) as Hhead
    by (vm_compute; do 3 right; left).
  assert (FsReadFile "/www/a.txt" ∈ events first) as Hread
    by (vm_compute; do 2 right; left).
  destruct (cache_write_then_hit Site.www_cached Site.env (Site.get "/a.txt" [])
              None ∅ h "/www/a.txt" eq_refl Hhead Hread)
    as (data & _ & Hentry & Hhit).
  assert (data = Site.hi) as ->.
  { vm_compute in Hentry. injection Hentry as Hbody. by rewrite <- Hbody. }
  assert (∀ req, requestPath req = "/a.txt" →
                 ¬ contains (decodedPath req) "..") as Hpath.
  { intros req Hreq Hsub. apply tilde_indexOf_spec in Hsub.
    unfold decodedPath in Hsub. rewrite Hreq in Hsub. by vm_compute in Hsub. }
  split.
  - apply (Hhit Site.www_cached rewritten (head_of "/a.txt?v=2") None);
      [done | by right | by apply Hpath | by intros (v & [=] & _)
      | by intros (v & [=] & _) | done].
  - apply (Hhit Site.www_cached rewritten (Site.get "/a.txt" []) None);
      [done | by left | by apply Hpath | by intros (v & [=] & _)
      | by intros (v & [=] & _) | done].
Defined.

(** A conditional GET for the rewritten [/a.txt] replaces the stale entry. *)
Lemma conditional_request_refreshes_witness :
  let c : gmap string CacheEntry := {["/a.txt" := Site.stale]} in
  let req := Site.get "/a.txt" [("if-none-match", "stale")] in
  let o := handler Site.www_cached rewritten req None c in
  result o = Return true
  ∧ entry_body <$> store o !! "/a.txt" = Some [x6e; x65; x77].
Proof.
  intros c req o.
  assert (result o = Return true) as Htrue by done.
  split; [exact Htrue |].
  destruct (conditional_request_refreshes Site.www_cached rewritten req None c)
    as (filename & st & raw & data & _ & _ & _ & _ & Hstore);
    [done | by left | | right; by exists "stale" | exact Htrue |].
  - intros Hsub%tilde_indexOf_spec. by vm_compute in Hsub.
  - by vm_compute.
Defined.

(** The entry written under the prefix [undefined] is cleared with the same
    options. *)
Lemma clearCache_after_handler_witness :
  let req := Site.get "/docs/?v=1" [] in
  let o := handler Site.www_cached Site.env req Site.nocache_only ∅ in
  is_Some (store o !! "undefined/docs/")
  ∧ store (clearCache (Some "/docs/") Site.nocache_only (store o)) = ∅.
Proof.
  intros req o. split; [vm_compute; by eexists |].
  pose proof (clearCache_after_handler Site.www_cached Site.env req
                Site.nocache_only ∅ ltac:(done)) as Hclear.
  etrans; [exact Hclear | by vm_compute].
Defined.

(** HEAD [/a.txt]: no body is sent, and the entry holds the two bytes. *)
Lemma head_sends_no_body_witness :
  let o := handler Site.www_cached Site.env (head_of "/a.txt") None ∅ in
  ResEnd None ∈ events o
  ∧ (∀ body, ResEnd body ∈ events o → body = None)
  ∧ entry_body <$> store o !! "/a.txt" = Some Site.hi.
Proof.
  intros o.
  destruct (head_sends_no_body Site.www_cached Site.env (head_of "/a.txt") None ∅)
    as [Hnone _]; [done | |].
  - intros Hsub%tilde_indexOf_spec. by vm_compute in Hsub.
  - split_and!; [vm_compute; do 4 right; left | exact Hnone | by vm_compute].
Defined.

(** With the doubling transform the two bytes of [/a.txt] are sent as four
    and [content-length] is 4. *)
Lemma content_length_of_body_witness :
  let o := handler Site.www Site.env (Site.get "/a.txt" []) doubling ∅ in
  let h := responseHeaders Site.www Site.env doubling "/www/a.txt"
             {| size := 2; mtime := 1000; isDirectory := false |}
             (Site.hi ++ Site.hi) in
  WriteHead 200 h ∈ events o
  ∧ h !! "content-length" = Some (HNum 4)
  ∧ ResEnd (Some (Bytes (Site.hi ++ Site.hi))) ∈ events o.
Proof.
  intros o h.
  assert (WriteHead 200 h ∈ events o) as Hhead by (vm_compute; do 2 right; left).
  assert (FsReadFile "/www/a.txt" ∈ events o) as Hread by (vm_compute; right; left).
  destruct (content_length_of_body Site.www Site.env (Site.get "/a.txt" [])
              doubling ∅ h "/www/a.txt" Hhead Hread)
    as (raw & data & Hraw & Hdata & Hlength & _ & Hbody).
  injection Hraw as <-. injection Hdata as <-.
  split_and!; [exact Hhead | exact Hlength | by apply Hbody].
Defined.

(** [/docs/] is answered with [/www/docs/index.html], as [text/html]. *)
Lemma remaining_headers_witness :
  let o := handler Site.www Site.env (Site.get "/docs/" []) None ∅ in
  let h := responseHeaders Site.www Site.env None "/www/docs/index.html"
             {| size := 3; mtime := 4000; isDirectory := false |}
             [x3c; x70; x3e] in
  WriteHead 200 h ∈ events o
  ∧ h !! "content-type" = Some (HStr "text/html")
  ∧ h !! "last-modified" = Some (HStr "Thu, 01 Jan 1970 00:00:04 GMT")
  ∧ h !! "expires" = Some (HStr "Sun, 02 Nov 2025 00:00:00 GMT")
  ∧ h !! "ETag" = None.
Proof.
  intros o h.
  assert (WriteHead 200 h ∈ events o) as Hhead by (vm_compute; do 2 right; left).
  assert (FsReadFile "/www/docs/index.html" ∈ events o) as Hread
    by (vm_compute; right; left).
  destruct (remaining_headers Site.www Site.env (Site.get "/docs/" []) None ∅
              h "/www/docs/index.html" Hhead Hread)
    as (st & raw & data & Hst & Hraw & Hdata & Htype & Hlast & Hexpires & Hfields).
  injection Hst as <-. injection Hraw as <-. injection Hdata as <-.
  split_and!; [exact Hhead | exact Htype | exact Hlast | exact Hexpires |].
  destruct (h !! "ETag") as [value|] eqn:Hcap; [| done].
  specialize (Hfields "ETag" ltac:(by eexists)).
  rewrite !elem_of_cons, elem_of_nil in Hfields. by destruct_or?.
Defined.

Lemma query_string_ignored_witness :
  handler Site.www_cached Site.env (Site.get "/a.txt?v=1" []) None ∅
  = handler Site.www_cached Site.env (Site.get "/a.txt" []) None ∅.
Proof.
  apply (query_string_ignored _ _ (Site.get "/a.txt" []) _ _ _ "v=1");
    [done | done | | done].
  intros Hsub. apply tilde_indexOf_spec in Hsub. by vm_compute in Hsub.
Defined.

(** [/www/both] is a directory and [/alt/both] a file: the request is
    declined after the first stat. *)
Lemma directory_hides_later_roots_witness :
  fs_stat Site.env "/alt/both"
  = Return {| size := 2; mtime := 5000; isDirectory := false |}
  ∧ handler Site.www_alt Site.env (Site.get "/both" []) None ∅
    = {| store := ∅; events := [FsStat "/www/both"]; result := Return false |}.
Proof.
  split; [done |].
  assert (reachesRoots Site.www_alt (Site.get "/both" []) None ∅ []) as Hreach
    by (split_and!; [done | done | by right]).
  exact (directory_hides_later_roots Site.www_alt Site.env (Site.get "/both" [])
           None ∅ [] [] "/www" ["/alt"]
           {| size := 4096; mtime := 3000; isDirectory := true |}
           Hreach eq_refl (List.Forall_nil _) eq_refl eq_refl).
Defined.

(** [/www/gone.txt] can be statted but no longer read. *)
Lemma read_errors_are_thrown_witness :
  let o := handler Site.www_cached vanishing (Site.get "/gone.txt" []) None ∅ in
  result o = Throw Site.ENOENT ∧ store o = ∅
  ∧ ∀ e, e ∈ events o → isResponse e = false.
Proof.
  assert (reachesRoots Site.www_cached (Site.get "/gone.txt" []) None ∅
            [CacheRead "/gone.txt"]) as Hreach
    by (split_and!; [done | done | by left]).
  exact (read_errors_are_thrown Site.www_cached vanishing (Site.get "/gone.txt" [])
           None ∅ [CacheRead "/gone.txt"] [] "/www" []
           {| size := 2; mtime := 1000; isDirectory := false |} Site.ENOENT
           Hreach eq_refl (List.Forall_nil _) eq_refl eq_refl (or_introl eq_refl)).
Defined.

Lemma no_roots_witness :
  let o := handler rootless Site.env (Site.get "/a.txt" []) None ∅ in
  result o = Return false ∧ ∀ e, e ∈ events o → isFsAccess e = false.
Proof.
  intros o. split; [done |].
  by apply (no_roots rootless Site.env (Site.get "/a.txt" []) None ∅).
Defined.

(** The read made for [/a.txt] with the roots [/none], [/www] and [/alt] is at
    [/www/a.txt]. *)
Lemma fs_access_confined_witness :
  let o := handler Site.three_roots Site.env (Site.get "/a.txt" []) None ∅ in
  FsReadFile "/www/a.txt" ∈ events o
  ∧ ∃ root, root ∈ roots Site.three_roots
            ∧ (FsReadFile "/www/a.txt" = FsStat (candidate root "/a.txt")
               ∨ FsReadFile "/www/a.txt" = FsReadFile (candidate root "/a.txt")).
Proof.
  intros o.
  assert (FsReadFile "/www/a.txt" ∈ events o) as Hin
    by (vm_compute; repeat first [by left | right]).
  split; [exact Hin |].
  exact (fs_access_confined Site.three_roots Site.env (Site.get "/a.txt" []) None ∅
           (FsReadFile "/www/a.txt") Hin eq_refl).
Defined.

End FurtherExamples.
